(** * News analysis dashboard: the filtering and statistics pipeline

    A shallow embedding of [dashboard_5_oov.py].  Only the data path is
    embedded: the filters of both pipelines, the free-text / exact domain
    narrowing, the per-domain statistics and the sunburst aggregation.  The
    widget and charting calls consume these tables and are not modelled.

    Modelling conventions.
    - A data frame is the list of its rows, in row order; a boolean mask
      [df[mask]] is stdpp's [filter].
    - A float64 column ([Score], the percentages) is a rational [Q].  NaN
      scores are not represented; a division whose divisor is zero, which
      pandas evaluates to a non-finite value without raising, is [None].
      Arithmetic and rounding are exact here and float64 in the code, so a
      rounded value can differ in its last decimal; apart from examples
      whose values are exact in float64, the theorems state bounds and
      orderings that float64 rounding preserves.
    - An int64 column ([Combination_Total_Count], group sizes) is a [Z]
      and its sums are integer sums; [int64_sum] is the wrapping sum of
      the code, equal to the integer sum as long as that fits.
    - A string column of the domain table is a [string]; the four grouping
      columns of the posts table are [option string], [None] being the
      missing value that [pd.read_csv] produces for an empty cell.
    - A pandas Series indexed by [Domain] is a [gmap string Z]. *)

From Stdlib Require Import Ascii QArith Qround Qabs Qminmax Lqa.
From stdpp Require Import base decidable option list sorting gmap strings.

(** ** Data model *)

(** The dictionary [filters] built from the sidebar widgets. *)
Module Filters.
Record t := mk {
    score_range : Q * Q;
    party : string;
    sentiment : string;
    local_cat : string;
    topic : string
  }.
End Filters.

(** A row of [all_analysis_data.csv]. *)
Module DomainRecord.
Record t := mk {
    Domain : string;
    Global_Classification : string;
    Sentiment : string;
    Local_Category : string;
    Topic_Category : string;
    Score : Q;
    Combination_Total_Count : Z
  }.
End DomainRecord.

(** A row of [scatter_analysis.csv]. *)
Module PostRecord.
Record t := mk {
    party : option string;
    Sentiment_Category : option string;
    Local_Category : option string;
    Topic_Category : option string;
    Score : Q;
    ave_sentiment : Q
  }.
End PostRecord.

(** Comparison of two floats, as a decidable proposition. *)
#[global] Instance Qle_decision : RelDecision Qle.
Proof. intros x y. unfold Qle. apply _. Defined.

#[global] Instance Q_eq_decision : EqDecision Q.
Proof. solve_decision. Defined.

#[global] Instance DomainRecord_eq_decision : EqDecision DomainRecord.t.
Proof. solve_decision. Defined.

#[global] Instance PostRecord_eq_decision : EqDecision PostRecord.t.
Proof. solve_decision. Defined.

(** ** [filter_dataframe] *)

(** The mask [(df["Score"] >= lo) & (df["Score"] <= hi)]. *)
Definition score_mask (score_range : Q * Q) (score : Q) : Prop :=
  (score_range.1 <= score)%Q ∧ (score <= score_range.2)%Q.

#[global] Instance score_mask_dec sr s : Decision (score_mask sr s).
Proof. unfold score_mask. apply _. Defined.

Definition filter_dataframe (df : list DomainRecord.t) (filters : Filters.t)
  : list DomainRecord.t :=
  let filtered_df := df in
  (* Score range filter *)
  let filtered_df :=
    filter (λ r, score_mask (Filters.score_range filters) (DomainRecord.Score r))
           filtered_df in
  (* Categorical filters *)
  let filtered_df :=
    if decide (Filters.party filters ≠ "All")
    then filter (λ r, DomainRecord.Global_Classification r = Filters.party filters)
                filtered_df
    else filtered_df in
  let filtered_df :=
    if decide (Filters.sentiment filters ≠ "All")
    then filter (λ r, DomainRecord.Sentiment r = Filters.sentiment filters)
                filtered_df
    else filtered_df in
  let filtered_df :=
    if decide (Filters.local_cat filters ≠ "All")
    then filter (λ r, DomainRecord.Local_Category r = Filters.local_cat filters)
                filtered_df
    else filter (λ r, DomainRecord.Local_Category r = "all") filtered_df in
  let filtered_df :=
    if decide (Filters.topic filters ≠ "All")
    then filter (λ r, DomainRecord.Topic_Category r = Filters.topic filters)
                filtered_df
    else filtered_df in
  filtered_df.

(** ** The posts filter of [run_posts_analysis] *)

Definition filtered_posts (posts_df : list PostRecord.t) (filters : Filters.t)
  : list PostRecord.t :=
  let filtered_posts :=
    filter (λ r, score_mask (Filters.score_range filters) (PostRecord.Score r))
           posts_df in
  let filtered_posts :=
    if decide (Filters.party filters ≠ "All")
    then filter (λ r, PostRecord.party r = Some (Filters.party filters))
                filtered_posts
    else filtered_posts in
  let filtered_posts :=
    if decide (Filters.sentiment filters ≠ "All")
    then filter (λ r, PostRecord.Sentiment_Category r = Some (Filters.sentiment filters))
                filtered_posts
    else filtered_posts in
  let filtered_posts :=
    if decide (Filters.local_cat filters ≠ "All")
    then filter (λ r, PostRecord.Local_Category r = Some (Filters.local_cat filters))
                filtered_posts
    else filtered_posts in
  let filtered_posts :=
    if decide (Filters.topic filters ≠ "All")
    then filter (λ r, PostRecord.Topic_Category r = Some (Filters.topic filters))
                filtered_posts
    else filtered_posts in
  filtered_posts.

(** ** [calculate_domain_statistics] *)

(** [np.rint]: the nearest integer, a tie going to the even neighbour. *)
Definition rint (x : Q) : Z :=
  let f := Qfloor x in
  match (x - inject_Z f ?= 1 # 2)%Q with
  | Lt => f
  | Gt => (f + 1)%Z
  | Eq => if Z.even f then f else (f + 1)%Z
  end.

(** [.round(decimals)] on a float column: numpy scales by [10 ** decimals],
    rounds to the nearest integer and scales back. *)
Definition np_round (decimals : nat) (x : Q) : Q :=
  let scale := inject_Z (10 ^ Z.of_nat decimals) in
  Qred (inject_Z (rint (x * scale)) / scale).

Definition Zsum (l : list Z) : Z := foldr Z.add 0%Z l.
Definition Qsum (l : list Q) : Q := foldr Qplus 0%Q l.

(** The aggregations ["mean"], ["min"] and ["max"] of a non-empty column
    whose first value is [x]. *)
Definition mean (x : Q) (xs : list Q) : Q :=
  (Qsum (x :: xs) / inject_Z (Z.of_nat (length (x :: xs))))%Q.
Definition col_min (x : Q) (xs : list Q) : Q := foldl Qmin x xs.
Definition col_max (x : Q) (xs : list Q) : Q := foldl Qmax x xs.

(** A row of [stats_df] after the [agg], [round] and column renaming. *)
Module AggRow.
Record t := mk {
    Domain : string;
    Total_Articles : Z;
    Average_Score : Q;
    Min_Score : Q;
    Max_Score : Q;
    Party : string
  }.
End AggRow.

(** A row of the table that [calculate_domain_statistics] returns. *)
Module StatsRow.
Record t := mk {
    Domain : string;
    Total_Articles : Z;
    Democrat_Articles : Z;
    Republican_Articles : Z;
    Average_Score : Q;
    Min_Score : Q;
    Max_Score : Q;
    Party : string
  }.
End StatsRow.

#[global] Instance StatsRow_eq_decision : EqDecision StatsRow.t.
Proof. solve_decision. Defined.

(** The group keys of [df.groupby("Domain")]: the distinct domains, sorted. *)
Definition group_keys (df : list DomainRecord.t) : list string :=
  merge_sort String.le (remove_dups (DomainRecord.Domain <$> df)).

(** The rows of the group of domain [d], in row order. *)
Definition get_group (df : list DomainRecord.t) (d : string)
  : list DomainRecord.t :=
  filter (λ r, DomainRecord.Domain r = d) df.

(** [.agg({...}).round(2)] on one group; a group of [groupby] is never
    empty. *)
Definition agg (d : string) (g : list DomainRecord.t) : option AggRow.t :=
  match g with
  | [] => None
  | r :: rs =>
      let scores := DomainRecord.Score <$> rs in
      Some {|
        AggRow.Domain := d;
        AggRow.Total_Articles := Zsum (DomainRecord.Combination_Total_Count <$> g);
        AggRow.Average_Score := np_round 2 (mean (DomainRecord.Score r) scores);
        AggRow.Min_Score := np_round 2 (col_min (DomainRecord.Score r) scores);
        AggRow.Max_Score := np_round 2 (col_max (DomainRecord.Score r) scores);
        AggRow.Party := DomainRecord.Global_Classification r
      |}
  end.

(** The order of [sort_values("Total Articles", ascending=False)].  Rows
    with the same total may come out in either order (the default sort of
    pandas is not stable); the merge sort below fixes one of them. *)
Definition Total_Articles_ge (a b : AggRow.t) : Prop :=
  (AggRow.Total_Articles b <= AggRow.Total_Articles a)%Z.

#[global] Instance Total_Articles_ge_dec : RelDecision Total_Articles_ge.
Proof. intros a b. unfold Total_Articles_ge. apply _. Defined.

(** [df.groupby("Domain")["Combination_Total_Count"].sum()], the Series
    that [.map] looks domains up in. *)
Definition groupby_sum (df : list DomainRecord.t) : gmap string Z :=
  foldr (λ r acc,
           <[DomainRecord.Domain r :=
               (default 0 (acc !! DomainRecord.Domain r)
                + DomainRecord.Combination_Total_Count r)%Z]> acc)
        ∅ df.

Definition dem_labels : list string := ["Democrat"; "Democratic"; "dem"].
Definition rep_labels : list string := ["Republican"; "rep"].

Definition calculate_domain_statistics (df : list DomainRecord.t)
  : list StatsRow.t :=
  let stats_df := omap (λ d, agg d (get_group df d)) (group_keys df) in
  let stats_df := merge_sort Total_Articles_ge stats_df in
  (* Calculate party-specific counts *)
  let dem_counts :=
    groupby_sum (filter (λ r, DomainRecord.Global_Classification r ∈ dem_labels) df) in
  let rep_counts :=
    groupby_sum (filter (λ r, DomainRecord.Global_Classification r ∈ rep_labels) df) in
  (* Add party-specific counts, reorder columns *)
  (λ a, {|
     StatsRow.Domain := AggRow.Domain a;
     StatsRow.Total_Articles := AggRow.Total_Articles a;
     StatsRow.Democrat_Articles := default 0%Z (dem_counts !! AggRow.Domain a);
     StatsRow.Republican_Articles := default 0%Z (rep_counts !! AggRow.Domain a);
     StatsRow.Average_Score := AggRow.Average_Score a;
     StatsRow.Min_Score := AggRow.Min_Score a;
     StatsRow.Max_Score := AggRow.Max_Score a;
     StatsRow.Party := AggRow.Party a
   |}) <$> stats_df.

(** ** The domain search of [run_domain_analysis] *)

(** [Series.str.contains(search_text, case=False)] reads [search_text] as a
    regular expression ([regex=True] is the default) and searches each value
    for it, ignoring case.  The fragment modelled here is a pattern of
    ordinary ASCII characters and dots over ASCII values; for anything else
    the model gives no answer ([None]). *)
Inductive atom :=
  | Lit (c : ascii)   (* an ordinary character *)
  | AnyChar.          (* [.]: any character but a newline *)

Definition ascii_lower (c : ascii) : ascii :=
  let n := Ascii.N_of_ascii c in
  if decide (65 ≤ n ∧ n ≤ 90)%N then Ascii.ascii_of_N (n + 32) else c.

Definition is_ascii (c : ascii) : Prop := (Ascii.N_of_ascii c < 128)%N.

#[global] Instance is_ascii_dec c : Decision (is_ascii c).
Proof. unfold is_ascii. apply _. Defined.

(** The characters with a special meaning in a pattern. *)
Definition metachars : list ascii :=
  String.list_ascii_of_string ".^$*+?{}[]\|()".

Definition compile_char (c : ascii) : option atom :=
  if decide (c = "."%char) then Some AnyChar
  else if decide (c ∈ metachars ∨ ¬ is_ascii c) then None
  else Some (Lit c).

Definition compile (pat : string) : option (list atom) :=
  mapM compile_char (String.list_ascii_of_string pat).

Definition atom_matches (a : atom) (c : ascii) : bool :=
  match a with
  | Lit x => bool_decide (ascii_lower x = ascii_lower c)
  | AnyChar => bool_decide (c ≠ "010"%char)
  end.

Fixpoint match_here (p : list atom) (s : list ascii) : bool :=
  match p, s with
  | [], _ => true
  | _ :: _, [] => false
  | a :: p', c :: s' => atom_matches a c && match_here p' s'
  end.

Fixpoint re_search (p : list atom) (s : list ascii) : bool :=
  match_here p s ||
  match s with
  | [] => false
  | _ :: s' => re_search p s'
  end.

(** The mask of one value; [None] outside the modelled fragment. *)
Definition str_contains (pat : string) (value : string) : option bool :=
  p ← compile pat;
  if decide (Forall is_ascii (String.list_ascii_of_string value))
  then Some (re_search p (String.list_ascii_of_string value))
  else None.

(** [df[mask]] for a mask that the model may fail to evaluate. *)
Fixpoint filter_mask (mask : DomainRecord.t → option bool)
    (df : list DomainRecord.t) : option (list DomainRecord.t) :=
  match df with
  | [] => Some []
  | r :: df' =>
      b ← mask r;
      rest ← filter_mask mask df';
      Some (if b : bool then r :: rest else rest)
  end.

(** The statements under "Apply domain filters". *)
Definition apply_domain_filters (filtered_df : list DomainRecord.t)
    (search_text exact_domain : string) : option (list DomainRecord.t) :=
  filtered_df ←
    (if decide (search_text ≠ "")
     then filter_mask (λ r, str_contains search_text (DomainRecord.Domain r))
                      filtered_df
     else Some filtered_df);
  Some (if decide (exact_domain ≠ "")
        then filter (λ r, DomainRecord.Domain r = exact_domain) filtered_df
        else filtered_df).

(** The table that [run_domain_analysis] shows and offers for download:
    filter, then narrow by domain, then aggregate. *)
Definition run_domain_analysis (df : list DomainRecord.t)
    (filters : Filters.t) (search_text exact_domain : string)
  : option (list StatsRow.t) :=
  (* Apply filters *)
  let filtered_df := filter_dataframe df filters in
  (* Apply domain filters *)
  filtered_df ← apply_domain_filters filtered_df search_text exact_domain;
  (* Domain Statistics *)
  Some (calculate_domain_statistics filtered_df).

(** ** The sunburst aggregation of [run_posts_analysis] *)

(** A group key: (Topic_Category, Local_Category, Sentiment_Category, party). *)
Abbreviation key := (string * string * string * string)%type.

(** The key of a row; [groupby] drops a row with a missing value in a
    grouping column ([dropna=True] is the default). *)
Definition group_key (r : PostRecord.t) : option key :=
  t ← PostRecord.Topic_Category r;
  l ← PostRecord.Local_Category r;
  s ← PostRecord.Sentiment_Category r;
  p ← PostRecord.party r;
  Some (t, l, s, p).

(** Group keys are sorted lexicographically. *)
Definition lex (c1 c2 : comparison) : comparison :=
  match c1 with Eq => c2 | _ => c1 end.

Definition key_compare (a b : key) : comparison :=
  let '(t1, l1, s1, p1) := a in
  let '(t2, l2, s2, p2) := b in
  lex (String.compare t1 t2)
      (lex (String.compare l1 l2)
           (lex (String.compare s1 s2) (String.compare p1 p2))).

Definition key_le (a b : key) : Prop := key_compare a b ≠ Gt.

#[global] Instance comparison_eq_decision : EqDecision comparison.
Proof. solve_decision. Defined.

#[global] Instance key_le_dec : RelDecision key_le.
Proof. intros a b. unfold key_le. apply _. Defined.

(** [df.groupby([...]).size().reset_index(name='count')]. *)
Definition groupby_size (df : list PostRecord.t) : list (key * Z) :=
  let keys := omap group_key df in
  (λ k, (k, Z.of_nat (length (filter (λ k', k' = k) keys))))
    <$> merge_sort key_le (remove_dups keys).

(** Division of an integer column by an integer: a float, non-finite (and
    no exception) when the divisor is zero. *)
Definition pd_div (x d : Z) : option Q :=
  if decide (d = 0%Z) then None else Some (inject_Z x / inject_Z d)%Q.

(** [(count / total * 100).round(1)]. *)
Definition percentage (count total : Z) : option Q :=
  (λ q, np_round 1 (q * 100)) <$> pd_div count total.

(** A row of [sunburst_data]; the [label] column, display text built from
    the three numeric columns, is left out. *)
Module SunburstRow.
Record t := mk {
    Topic_Category : string;
    Local_Category : string;
    Sentiment_Category : string;
    party : string;
    count : Z;
    percentage_total : option Q;
    percentage_filtered : option Q
  }.
End SunburstRow.

Definition total_count_filtered (posts_df : list PostRecord.t)
    (filters : Filters.t) : Z :=
  Z.of_nat (length (filtered_posts posts_df filters)).

Definition sunburst_data (posts_df : list PostRecord.t) (filters : Filters.t)
  : list SunburstRow.t :=
  let filtered_posts := filtered_posts posts_df filters in
  (* Calculate percentages *)
  let total_count_all := Z.of_nat (length posts_df) in
  let total_count_filtered := Z.of_nat (length filtered_posts) in
  (λ g, let '((t, l, s, p), count) := g in
     {|
       SunburstRow.Topic_Category := t;
       SunburstRow.Local_Category := l;
       SunburstRow.Sentiment_Category := s;
       SunburstRow.party := p;
       SunburstRow.count := count;
       SunburstRow.percentage_total := percentage count total_count_all;
       SunburstRow.percentage_filtered := percentage count total_count_filtered
     |}) <$> groupby_size filtered_posts.

(** ** Constants and the sidebar widgets *)

(** The dictionary [PARTY_COLORS]. *)
Definition PARTY_COLORS : gmap string string :=
  list_to_map
    [ ("Democrat", "#0015BC");
      ("Republican", "#FF0000");
      ("Democratic", "#0015BC");
      ("Both", "#800080");
      ("dem", "#0015BC");
      ("rep", "#FF0000") ].

(** [Series.unique()]: the distinct values, in order of first appearance. *)
Fixpoint unique {A} `{!EqDecision A} (l : list A) : list A :=
  match l with
  | [] => []
  | x :: l' => x :: filter (λ y, y ≠ x) (unique l')
  end.

(** [Series.min()] and [Series.max()] of a score column.  On an empty column
    pandas gives NaN, which leaves the slider without bounds: no value. *)
Definition score_bounds (scores : list Q) : option (Q * Q) :=
  match scores with
  | [] => None
  | x :: xs => Some (col_min x xs, col_max x xs)
  end.

(** The choices of the select boxes of [run_domain_analysis]. *)
Definition party_options (df : list DomainRecord.t) : list string :=
  "All" :: unique (DomainRecord.Global_Classification <$> df).
Definition sentiment_options (df : list DomainRecord.t) : list string :=
  "All" :: unique (DomainRecord.Sentiment <$> df).
Definition local_cat_options : list string := ["All"; "local"; "non_local"].
Definition topic_options (df : list DomainRecord.t) : list string :=
  "All" :: unique (DomainRecord.Topic_Category <$> df).

(** The dictionary [filters] of [run_domain_analysis] before a widget is
    touched: the slider stands at its [value], the whole score range, and
    every select box at its first choice. *)
Definition default_filters (df : list DomainRecord.t) : option Filters.t :=
  score_range ← score_bounds (DomainRecord.Score <$> df);
  Some (Filters.mk score_range "All" "All" "All" "All").

(** The same for [run_posts_analysis]. *)
Definition default_posts_filters (posts_df : list PostRecord.t)
  : option Filters.t :=
  score_range ← score_bounds (PostRecord.Score <$> posts_df);
  Some (Filters.mk score_range "All" "All" "All" "All").

(** The Local Category choices of [run_posts_analysis]:
    [["All"] + sorted(list(posts_df["Local_Category"].dropna().unique()))]. *)
Definition posts_local_cat_options (posts_df : list PostRecord.t)
  : list string :=
  "All" :: merge_sort String.le (unique (omap PostRecord.Local_Category posts_df)).

(** [all_domains] and the choices of the exact-domain select box. *)
Definition all_domains (filtered_df : list DomainRecord.t) : list string :=
  merge_sort String.le (unique (DomainRecord.Domain <$> filtered_df)).
Definition exact_domain_options (filtered_df : list DomainRecord.t)
  : list string :=
  "" :: all_domains filtered_df.

(** ** [show_debug_info] *)

(** The numbers and the sample that [show_debug_info] writes to the
    sidebar. *)
Module DebugInfo.
Record t := mk {
  total_entries : nat;
  total_articles : Z;
  unique_domains : nat;
  data_sample : list (string * string * Z)
}.
End DebugInfo.

Definition show_debug_info (df : list DomainRecord.t) : DebugInfo.t :=
  {| DebugInfo.total_entries := length df;
     DebugInfo.total_articles :=
       Zsum (DomainRecord.Combination_Total_Count <$> df);
     DebugInfo.unique_domains := length (unique (DomainRecord.Domain <$> df));
     DebugInfo.data_sample :=
       take 5 ((λ r, (DomainRecord.Domain r,
                      DomainRecord.Global_Classification r,
                      DomainRecord.Combination_Total_Count r)) <$> df) |}.

(** ** The bar charts of [run_domain_analysis] *)

(** The order of the keys of a two-column [groupby]. *)
Definition pair_le (a b : string * string) : Prop :=
  lex (String.compare a.1 b.1) (String.compare a.2 b.2) ≠ Gt.

#[global] Instance pair_le_dec : RelDecision pair_le.
Proof. intros a b. unfold pair_le. apply _. Defined.

(** [filtered_df.groupby([col, "Global_Classification"])
      ["Combination_Total_Count"].sum().reset_index()]. *)
Definition groupby_pair_sum (col : DomainRecord.t → string)
    (filtered_df : list DomainRecord.t) : list (string * string * Z) :=
  let key r := (col r, DomainRecord.Global_Classification r) in
  (λ k, (k.1, k.2,
         Zsum (DomainRecord.Combination_Total_Count
                 <$> filter (λ r, key r = k) filtered_df)))
    <$> merge_sort pair_le (remove_dups (key <$> filtered_df)).

Definition topic_dist (filtered_df : list DomainRecord.t)
  : list (string * string * Z) :=
  groupby_pair_sum DomainRecord.Topic_Category filtered_df.

Definition sentiment_dist (filtered_df : list DomainRecord.t)
  : list (string * string * Z) :=
  groupby_pair_sum DomainRecord.Sentiment filtered_df.

(** [filtered_df.groupby(["Topic_Category", "Global_Classification"])
      ["Score"].mean().reset_index()]. *)
Definition topic_score (filtered_df : list DomainRecord.t)
  : list (string * string * Q) :=
  let key r :=
    (DomainRecord.Topic_Category r, DomainRecord.Global_Classification r) in
  omap (λ k, match filter (λ r, key r = k) filtered_df with
             | [] => None
             | r :: rs =>
                 Some (k.1, k.2,
                       mean (DomainRecord.Score r) (DomainRecord.Score <$> rs))
             end)
       (merge_sort pair_le (remove_dups (key <$> filtered_df))).

(** ** The summary by party of [run_posts_analysis] *)

(** A row of [party_stats]; the party is the index of the table. *)
Module PartyStats.
Record t := mk {
  party : string;
  Total_Articles : Z;
  Average_Score : Q;
  Average_Sentiment : Q
}.
End PartyStats.

(** [filtered_posts.groupby("party").agg({"Score": ["count", "mean"],
      "ave_sentiment": "mean"}).round(2)]; rows without a party are in no
    group. *)
Definition party_stats (filtered_posts : list PostRecord.t)
  : list PartyStats.t :=
  omap (λ p, match filter (λ r, PostRecord.party r = Some p) filtered_posts with
             | [] => None
             | r :: rs =>
                 Some {|
                   PartyStats.party := p;
                   PartyStats.Total_Articles := Z.of_nat (length (r :: rs));
                   PartyStats.Average_Score :=
                     np_round 2 (mean (PostRecord.Score r)
                                      (PostRecord.Score <$> rs));
                   PartyStats.Average_Sentiment :=
                     np_round 2 (mean (PostRecord.ave_sentiment r)
                                      (PostRecord.ave_sentiment <$> rs))
                 |}
             end)
       (merge_sort String.le (remove_dups (omap PostRecord.party filtered_posts))).

(** ** Machine integers and the library's mask *)

(** pandas holds [Combination_Total_Count] and its sums in int64: an
    addition that leaves the range wraps around. *)
Definition wrap64 (z : Z) : Z := ((z + 2 ^ 63) mod 2 ^ 64 - 2 ^ 63)%Z.

Definition int64_sum (l : list Z) : Z :=
  foldl (λ acc x, wrap64 (acc + x)) 0%Z l.

(** The statements under "Apply domain filters", for whatever boolean mask
    [str.contains(search_text, case=False)] returns on a Domain value. *)
Definition narrow_domains (contains : string → string → bool)
    (filtered_df : list DomainRecord.t) (search_text exact_domain : string)
  : list DomainRecord.t :=
  let filtered_df :=
    if decide (search_text ≠ "")
    then filter (λ r, contains search_text (DomainRecord.Domain r) = true)
                filtered_df
    else filtered_df in
  let filtered_df :=
    if decide (exact_domain ≠ "")
    then filter (λ r, DomainRecord.Domain r = exact_domain) filtered_df
    else filtered_df in
  filtered_df.

(** * Vocabulary of the properties *)

(** What [filter_dataframe] asks of a row. *)
Definition passes (filters : Filters.t) (r : DomainRecord.t) : Prop :=
  score_mask (Filters.score_range filters) (DomainRecord.Score r)
  ∧ (Filters.party filters ≠ "All" →
     DomainRecord.Global_Classification r = Filters.party filters)
  ∧ (Filters.sentiment filters ≠ "All" →
     DomainRecord.Sentiment r = Filters.sentiment filters)
  ∧ (Filters.local_cat filters ≠ "All" →
     DomainRecord.Local_Category r = Filters.local_cat filters)
  ∧ (Filters.local_cat filters = "All" →
     DomainRecord.Local_Category r = "all")
  ∧ (Filters.topic filters ≠ "All" →
     DomainRecord.Topic_Category r = Filters.topic filters).

#[global] Instance passes_dec filters r : Decision (passes filters r).
Proof. unfold passes. apply _. Defined.

(** What the posts filter asks of a row. *)
Definition post_passes (filters : Filters.t) (r : PostRecord.t) : Prop :=
  score_mask (Filters.score_range filters) (PostRecord.Score r)
  ∧ (Filters.party filters ≠ "All" →
     PostRecord.party r = Some (Filters.party filters))
  ∧ (Filters.sentiment filters ≠ "All" →
     PostRecord.Sentiment_Category r = Some (Filters.sentiment filters))
  ∧ (Filters.local_cat filters ≠ "All" →
     PostRecord.Local_Category r = Some (Filters.local_cat filters))
  ∧ (Filters.topic filters ≠ "All" →
     PostRecord.Topic_Category r = Some (Filters.topic filters)).

#[global] Instance post_passes_dec filters r : Decision (post_passes filters r).
Proof. unfold post_passes. apply _. Defined.

Abbreviation counts df := (DomainRecord.Combination_Total_Count <$> df).

(** Grouping a list by a key and summing a weight inside one group. *)
Definition group_sum {A K : Type} `{!EqDecision K} (key : A → K) (w : A → Z)
    (l : list A) (k : K) : Z :=
  Zsum (w <$> filter (λ x, key x = k) l).

(** [stats_df] before the sort: one aggregated row per group. *)
Definition agg_rows (df : list DomainRecord.t) : list AggRow.t :=
  omap (λ d, agg d (get_group df d)) (group_keys df).

(** The output row built from an aggregated row. *)
Definition add_party_counts (df : list DomainRecord.t) (a : AggRow.t)
  : StatsRow.t :=
  {| StatsRow.Domain := AggRow.Domain a;
     StatsRow.Total_Articles := AggRow.Total_Articles a;
     StatsRow.Democrat_Articles :=
       default 0%Z
         (groupby_sum
            (filter (λ r, DomainRecord.Global_Classification r ∈ dem_labels) df)
          !! AggRow.Domain a);
     StatsRow.Republican_Articles :=
       default 0%Z
         (groupby_sum
            (filter (λ r, DomainRecord.Global_Classification r ∈ rep_labels) df)
          !! AggRow.Domain a);
     StatsRow.Average_Score := AggRow.Average_Score a;
     StatsRow.Min_Score := AggRow.Min_Score a;
     StatsRow.Max_Score := AggRow.Max_Score a;
     StatsRow.Party := AggRow.Party a |}.

(** The rows of one domain whose classification is one of [labels]. *)
Definition labelled (labels : list string) (d : string)
    (df : list DomainRecord.t) : list DomainRecord.t :=
  filter (λ r, DomainRecord.Domain r = d
               ∧ DomainRecord.Global_Classification r ∈ labels) df.

(** A row that [groupby] keeps: no grouping column is missing. *)
Definition has_key (r : PostRecord.t) : Prop :=
  is_Some (PostRecord.Topic_Category r)
  ∧ is_Some (PostRecord.Local_Category r)
  ∧ is_Some (PostRecord.Sentiment_Category r)
  ∧ is_Some (PostRecord.party r).

#[global] Instance has_key_dec r : Decision (has_key r).
Proof. unfold has_key. apply _. Defined.

(** The key of a row of the sunburst table. *)
Definition sunburst_key (g : SunburstRow.t) : key :=
  (SunburstRow.Topic_Category g, SunburstRow.Local_Category g,
   SunburstRow.Sentiment_Category g, SunburstRow.party g).





(** The claim's reading of the search: the text, lower-cased, is a
    contiguous part of the lower-cased value. *)
Definition string_lower (s : string) : list ascii :=
  ascii_lower <$> String.list_ascii_of_string s.

Definition contains_ignoring_case (text value : string) : Prop :=
  ∃ pre post, string_lower value = pre ++ string_lower text ++ post.

(** A test for it. *)
Fixpoint is_infix (needle hay : list ascii) : bool :=
  bool_decide (needle `prefix_of` hay) ||
  match hay with
  | [] => false
  | _ :: hay' => is_infix needle hay'
  end.

(** [str.lower()] on ASCII text. *)
Definition str_lower (s : string) : string :=
  String.string_of_list_ascii (string_lower s).

(** A pattern with its ordinary characters lower-cased. *)
Definition atom_lower (a : atom) : atom :=
  match a with
  | Lit x => Lit (ascii_lower x)
  | AnyChar => AnyChar
  end.

(** An ordinary character: ASCII and with no special meaning in a pattern. *)
Definition ordinary (c : ascii) : Prop := (c ∉ metachars) ∧ is_ascii c.

#[global] Instance ordinary_dec c : Decision (ordinary c).
Proof. unfold ordinary. apply _. Defined.

(** ** Sample tables *)

(** Sample tables used to run the definitions. *)
Definition all_filters (lo hi : Q) : Filters.t :=
  Filters.mk (lo, hi) "All" "All" "All" "All".

Definition sample_domains : list DomainRecord.t :=
  [ DomainRecord.mk "a.com" "Democrat" "positive" "all" "economy" 5 10;
    DomainRecord.mk "a.com" "democrat" "positive" "local" "economy" 5 7;
    DomainRecord.mk "a.com" "Democrat" "positive" "local" "economy" 4 6;
    DomainRecord.mk "b.org" "Republican" "negative" "non_local" "health" 3 4;
    DomainRecord.mk "b.org" "Republican" "negative" "all" "health" 12 9 ].

Definition sample_posts : list PostRecord.t :=
  [ PostRecord.mk (Some "dem") (Some "positive") (Some "local") (Some "economy") 5 (1 # 2);
    PostRecord.mk (Some "dem") (Some "positive") None (Some "economy") 4 (1 # 4);
    PostRecord.mk (Some "rep") (Some "negative") (Some "non_local") (Some "health") 3 (-1 # 2) ].



Definition search_sample : list DomainRecord.t :=
  [ DomainRecord.mk "A.COM" "Democrat" "positive" "all" "economy" 5 10;
    DomainRecord.mk "sub.a.com.net" "Republican" "negative" "all" "health" 3 4;
    DomainRecord.mk "abcom.org" "Both" "neutral" "all" "economy" 4 6;
    DomainRecord.mk "b.org" "Both" "neutral" "all" "health" 2 1 ].

(** * Properties *)

(** ** The filters as one row predicate *)

(** Successive masks are one mask. *)
Ltac fuse_filters :=
  repeat case_decide; cbn zeta;
  rewrite ?list_filter_filter;
  apply list_filter_iff; intros r; tauto.

Lemma filter_dataframe_passes df filters :
  filter_dataframe df filters = filter (passes filters) df.
Proof. unfold filter_dataframe, passes. fuse_filters. Qed.

Lemma filtered_posts_passes posts_df filters :
  filtered_posts posts_df filters = filter (post_passes filters) posts_df.
Proof. unfold filtered_posts, post_passes. fuse_filters. Qed.

Lemma elem_of_filter_dataframe df filters r :
  r ∈ filter_dataframe df filters ↔ passes filters r ∧ r ∈ df.
Proof. rewrite filter_dataframe_passes. apply list_elem_of_filter. Qed.

Lemma filter_twice {A} (P : A → Prop) `{!∀ x, Decision (P x)} (l : list A) :
  filter P (filter P l) = filter P l.
Proof. rewrite list_filter_filter. apply list_filter_iff. tauto. Qed.

(** ** Claims about the filters *)

(** C1: the Local_Category selector is asymmetric between the pipelines.
    In the domain pipeline the sentinel "All" keeps only the rows whose
    Local_Category is "all" (it acts exactly like selecting "all"), and a
    chosen value keeps only the rows with that value, so the "all" rows are
    excluded when the value differs from "all".  In the posts pipeline the
    sentinel "All" puts no condition on Local_Category: the rows kept are
    those that satisfy the score range and the three other selectors. *)
Theorem local_category_selector_asymmetric (sr : Q * Q) (p s tp : string) :
  (∀ df r,
     r ∈ filter_dataframe df (Filters.mk sr p s "All" tp) →
     DomainRecord.Local_Category r = "all")
  ∧ (∀ df,
       filter_dataframe df (Filters.mk sr p s "All" tp)
       = filter_dataframe df (Filters.mk sr p s "all" tp))
  ∧ (∀ df lc r,
       lc ≠ "All" →
       r ∈ filter_dataframe df (Filters.mk sr p s lc tp) →
       DomainRecord.Local_Category r = lc
       ∧ (lc ≠ "all" → DomainRecord.Local_Category r ≠ "all"))
  ∧ (∀ posts_df,
       filtered_posts posts_df (Filters.mk sr p s "All" tp)
       = filter (λ r, score_mask sr (PostRecord.Score r)
                      ∧ (p ≠ "All" → PostRecord.party r = Some p)
                      ∧ (s ≠ "All" → PostRecord.Sentiment_Category r = Some s)
                      ∧ (tp ≠ "All" → PostRecord.Topic_Category r = Some tp))
                posts_df).
Proof.
  split_and!.
  - intros df r (Hp & _)%elem_of_filter_dataframe.
    destruct Hp as (_ & _ & _ & _ & Hall & _). by apply Hall.
  - intros df. rewrite !filter_dataframe_passes.
    apply list_filter_iff. intros r. unfold passes; cbn.
    split; intros (? & ? & ? & Hlc & Hall & ?); split_and!; try done;
      intros _; first [by apply Hall | by apply Hlc].
  - intros df lc r Hlc (Hp & _)%elem_of_filter_dataframe.
    destruct Hp as (_ & _ & _ & Heq & _). cbn in Heq.
    split; [by apply Heq|]. intros Hne. by rewrite Heq.
  - intros posts_df. rewrite filtered_posts_passes.
    apply list_filter_iff. intros r. unfold post_passes; cbn. tauto.
Qed.

(** On the samples: the domain filter with "All" is the filter with "all",
    and the posts filter with "All" keeps the row without Local_Category. *)
Lemma local_category_selector_asymmetric_witness :
  filter_dataframe sample_domains (all_filters 0 10)
  = filter_dataframe sample_domains (Filters.mk (0, 10)%Q "All" "All" "all" "All")
  ∧ filtered_posts sample_posts (all_filters 0 10) = sample_posts.
Proof.
  destruct (local_category_selector_asymmetric (0, 10)%Q "All" "All" "All")
    as (_ & Hsame & _ & Hposts).
  split; [apply Hsame|].
  unfold all_filters. rewrite Hposts. vm_compute. reflexivity.
Defined.

(** C2: every row kept by [filter_dataframe] has its Score inside the closed
    range [lo, hi], and for each categorical selector that is not the
    sentinel "All" the row's field is equal to the selected value (equality
    of strings, hence case-sensitive). *)
Theorem filter_dataframe_sound df filters (lo hi : Q) r :
  Filters.score_range filters = (lo, hi) →
  r ∈ filter_dataframe df filters →
  (lo <= DomainRecord.Score r)%Q ∧ (DomainRecord.Score r <= hi)%Q
  ∧ (Filters.party filters ≠ "All" →
     DomainRecord.Global_Classification r = Filters.party filters)
  ∧ (Filters.sentiment filters ≠ "All" →
     DomainRecord.Sentiment r = Filters.sentiment filters)
  ∧ (Filters.local_cat filters ≠ "All" →
     DomainRecord.Local_Category r = Filters.local_cat filters)
  ∧ (Filters.topic filters ≠ "All" →
     DomainRecord.Topic_Category r = Filters.topic filters).
Proof.
  intros Hsr (Hp & _)%elem_of_filter_dataframe.
  destruct Hp as ([Hlo Hhi] & Hparty & Hsent & Hlc & _ & Htopic).
  rewrite Hsr in Hlo, Hhi. cbn in Hlo, Hhi. by split_and!.
Qed.

(** On the sample, the row labelled "democrat" is not kept for the party
    "Democrat". *)
Lemma filter_dataframe_sound_witness :
  let filters := Filters.mk (4, 10)%Q "Democrat" "All" "local" "economy" in
  let r := DomainRecord.mk "a.com" "Democrat" "positive" "local" "economy" 4 6 in
  filter_dataframe sample_domains filters = [r]
  ∧ (4 <= DomainRecord.Score r)%Q ∧ (DomainRecord.Score r <= 10)%Q
  ∧ DomainRecord.Global_Classification r = "Democrat"
  ∧ DomainRecord.Local_Category r = "local"
  ∧ DomainRecord.Topic_Category r = "economy".
Proof.
  intros filters r.
  assert (Hrun : filter_dataframe sample_domains filters = [r])
    by (vm_compute; reflexivity).
  split; [exact Hrun|].
  destruct (filter_dataframe_sound sample_domains filters 4 10 r)
    as (Hlo & Hhi & Hparty & _ & Hlc & Htopic).
  - reflexivity.
  - rewrite Hrun. apply list_elem_of_here.
  - split_and!; [exact Hlo | exact Hhi | by apply Hparty | by apply Hlc | by apply Htopic].
Defined.

(** C8: [filter_dataframe] is idempotent. *)
Theorem filter_dataframe_idempotent df filters :
  filter_dataframe (filter_dataframe df filters) filters
  = filter_dataframe df filters.
Proof. rewrite !filter_dataframe_passes. apply filter_twice. Qed.

(** ** Sums over groups *)

Lemma Zsum_cons x l : Zsum (x :: l) = (x + Zsum l)%Z.
Proof. reflexivity. Qed.

Lemma Zsum_Permutation l1 l2 : l1 ≡ₚ l2 → Zsum l1 = Zsum l2.
Proof. induction 1; rewrite ?Zsum_cons; lia. Qed.

Lemma get_group_cons r df d :
  get_group (r :: df) d
  = if decide (DomainRecord.Domain r = d) then r :: get_group df d
    else get_group df d.
Proof. unfold get_group. by rewrite filter_cons. Qed.

Lemma get_group_nonempty df d :
  d ∈ DomainRecord.Domain <$> df → get_group df d ≠ [].
Proof.
  intros (r & -> & Hr)%list_elem_of_fmap Hnil.
  assert (r ∈ get_group df (DomainRecord.Domain r)) as Hin
    by (by apply list_elem_of_filter).
  rewrite Hnil in Hin. by apply not_elem_of_nil in Hin.
Qed.

Lemma groupby_sum_cons r df :
  groupby_sum (r :: df)
  = <[DomainRecord.Domain r :=
        (default 0 (groupby_sum df !! DomainRecord.Domain r)
         + DomainRecord.Combination_Total_Count r)%Z]> (groupby_sum df).
Proof. reflexivity. Qed.

(** The Series of per-domain sums, looked up with a default of 0, is the
    sum over the rows of that domain. *)
Lemma groupby_sum_lookup df d :
  default 0%Z (groupby_sum df !! d) = Zsum (counts (get_group df d)).
Proof.
  induction df as [|r df IH]; [done|].
  rewrite get_group_cons, groupby_sum_cons. case_decide as Hd.
  - subst d. rewrite lookup_insert_eq, fmap_cons, Zsum_cons, <- IH. cbn. lia.
  - by rewrite lookup_insert_ne.
Qed.

(** A domain absent from the rows is absent from the Series. *)
Lemma groupby_sum_lookup_None df d :
  d ∉ DomainRecord.Domain <$> df → groupby_sum df !! d = None.
Proof.
  induction df as [|r df IH]; [done|].
  rewrite fmap_cons, not_elem_of_cons. intros [Hne Hnin].
  rewrite groupby_sum_cons, lookup_insert_ne by done. by apply IH.
Qed.

(** Grouping a list by a key and summing a weight inside each group. *)
Section group_sums.
Context {A K : Type} `{!EqDecision K} (key : A → K) (w : A → Z).

(** Adding an element adds its weight to the group it belongs to. *)
Lemma group_sums_cons (ks : list K) x l :
  NoDup ks →
  Zsum (group_sum key w (x :: l) <$> ks)
  = (Zsum (group_sum key w l <$> ks) + if decide (key x ∈ ks) then w x else 0)%Z.
Proof.
  induction 1 as [|k ks Hk Hnd IH]; [done|].
  rewrite !fmap_cons, !Zsum_cons, IH. clear IH.
  unfold group_sum at 1. rewrite filter_cons.
  destruct (decide (key x = k)) as [->|Hne].
  - rewrite (decide_True (P := k ∈ k :: ks)) by apply list_elem_of_here.
    rewrite (decide_False (P := k ∈ ks)) by done.
    rewrite fmap_cons, Zsum_cons. unfold group_sum. lia.
  - fold (group_sum key w l k).
    destruct (decide (key x ∈ ks)) as [Hin|Hnin].
    + rewrite decide_True by (by apply list_elem_of_further). lia.
    + rewrite decide_False; [lia|].
      rewrite not_elem_of_cons. done.
Qed.

(** Over a duplicate-free list of keys that covers every element, the
    group sums add up to the sum over the whole list. *)
Lemma group_sums_total (ks : list K) l :
  NoDup ks →
  (∀ x, x ∈ l → key x ∈ ks) →
  Zsum (group_sum key w l <$> ks) = Zsum (w <$> l).
Proof.
  intros Hnd. induction l as [|x l IH]; intros Hcover.
  - clear Hcover Hnd. induction ks as [|k ks IH]; [done|].
    rewrite fmap_cons, Zsum_cons, IH. done.
  - rewrite group_sums_cons by done.
    rewrite IH by (intros; apply Hcover; by apply list_elem_of_further).
    rewrite decide_True by (apply Hcover, list_elem_of_here).
    rewrite fmap_cons, Zsum_cons. lia.
Qed.
End group_sums.

Lemma group_keys_Permutation df :
  group_keys df ≡ₚ remove_dups (DomainRecord.Domain <$> df).
Proof. apply merge_sort_Permutation. Qed.

Lemma elem_of_group_keys df d :
  d ∈ group_keys df ↔ d ∈ DomainRecord.Domain <$> df.
Proof. by rewrite group_keys_Permutation, elem_of_remove_dups. Qed.

Lemma NoDup_group_keys df : NoDup (group_keys df).
Proof. rewrite group_keys_Permutation. apply NoDup_remove_dups. Qed.

(** ** The rows of the statistics table *)

#[global] Instance Total_Articles_ge_trans : Transitive Total_Articles_ge.
Proof. intros a b c. unfold Total_Articles_ge. lia. Qed.

#[global] Instance Total_Articles_ge_total : Total Total_Articles_ge.
Proof. intros a b. unfold Total_Articles_ge. lia. Qed.

Lemma agg_Some d g a :
  agg d g = Some a →
  AggRow.Domain a = d
  ∧ AggRow.Total_Articles a = Zsum (counts g).
Proof. destruct g as [|r rs]; [done|]. by intros [= <-]. Qed.

Lemma agg_is_Some d g : g ≠ [] → is_Some (agg d g).
Proof. destruct g; [done|]. by eexists. Qed.

Lemma elem_of_agg_rows df a :
  a ∈ agg_rows df →
  AggRow.Domain a ∈ DomainRecord.Domain <$> df
  ∧ AggRow.Total_Articles a = Zsum (counts (get_group df (AggRow.Domain a))).
Proof.
  intros (d & Hd & Ha)%list_elem_of_omap.
  apply agg_Some in Ha as [-> ->]. by apply elem_of_group_keys in Hd.
Qed.

(** No group is lost by the aggregation: the totals of the aggregated rows
    are the group sums, key by key. *)
Lemma agg_rows_totals df (keys : list string) :
  (∀ d, d ∈ keys → d ∈ DomainRecord.Domain <$> df) →
  AggRow.Total_Articles <$> omap (λ d, agg d (get_group df d)) keys
  = (λ d, Zsum (counts (get_group df d))) <$> keys.
Proof.
  induction keys as [|d keys IH]; intros Hin; [done|].
  destruct (agg_is_Some d (get_group df d)) as [a Ha].
  { apply get_group_nonempty, Hin, list_elem_of_here. }
  cbn [omap list_omap]. rewrite Ha. cbn [fmap list_fmap].
  apply agg_Some in Ha as [_ ->]. f_equal.
  apply IH. intros d' Hd'. by apply Hin, list_elem_of_further.
Qed.

Lemma calculate_domain_statistics_unfold df :
  calculate_domain_statistics df
  = add_party_counts df <$> merge_sort Total_Articles_ge (agg_rows df).
Proof. reflexivity. Qed.

Lemma get_group_filter_labels labels df d :
  get_group (filter (λ r, DomainRecord.Global_Classification r ∈ labels) df) d
  = labelled labels d df.
Proof. unfold get_group, labelled. by rewrite list_filter_filter. Qed.

Lemma labelled_get_group labels df d :
  labelled labels d df
  = filter (λ r, DomainRecord.Global_Classification r ∈ labels) (get_group df d).
Proof.
  unfold get_group, labelled. rewrite list_filter_filter.
  apply list_filter_iff. tauto.
Qed.

(** Every output row, field by field, in terms of the input rows. *)
Lemma elem_of_calculate_domain_statistics df s :
  s ∈ calculate_domain_statistics df →
  StatsRow.Domain s ∈ DomainRecord.Domain <$> df
  ∧ StatsRow.Total_Articles s
    = Zsum (counts (get_group df (StatsRow.Domain s)))
  ∧ StatsRow.Democrat_Articles s
    = Zsum (counts (labelled dem_labels (StatsRow.Domain s) df))
  ∧ StatsRow.Republican_Articles s
    = Zsum (counts (labelled rep_labels (StatsRow.Domain s) df)).
Proof.
  rewrite calculate_domain_statistics_unfold.
  intros (a & -> & Ha)%list_elem_of_fmap.
  rewrite merge_sort_Permutation in Ha.
  apply elem_of_agg_rows in Ha as [Hd Htot]. cbn.
  by rewrite !groupby_sum_lookup, !get_group_filter_labels.
Qed.

Lemma filter_none {A} (P : A → Prop) `{!∀ x, Decision (P x)} (l : list A) :
  (∀ x, x ∈ l → ¬ P x) → filter P l = [].
Proof.
  induction l as [|x l IH]; intros Hnone; [done|].
  rewrite filter_cons_False by (apply Hnone, list_elem_of_here).
  apply IH. intros y Hy. by apply Hnone, list_elem_of_further.
Qed.

(** ** Claims about the domain statistics *)


(** C4: the Total Articles column of the statistics table sums to the sum
    of Combination_Total_Count over the rows of the input table, and the
    rows are in descending order of Total Articles. *)
Theorem domain_statistics_sum_and_order df :
  Zsum (StatsRow.Total_Articles <$> calculate_domain_statistics df)
  = Zsum (counts df)
  ∧ StronglySorted
      (λ a b, (StatsRow.Total_Articles b <= StatsRow.Total_Articles a)%Z)
      (calculate_domain_statistics df).
Proof.
  rewrite calculate_domain_statistics_unfold. split.
  - rewrite <- list_fmap_compose.
    rewrite (list_fmap_ext _ AggRow.Total_Articles) by done.
    rewrite (Zsum_Permutation _ (AggRow.Total_Articles <$> agg_rows df))
      by (by rewrite merge_sort_Permutation).
    unfold agg_rows.
    rewrite agg_rows_totals by (intros d; apply elem_of_group_keys).
    apply (group_sums_total DomainRecord.Domain
             DomainRecord.Combination_Total_Count); [apply NoDup_group_keys|].
    intros r Hr. apply elem_of_group_keys. by apply list_elem_of_fmap_2.
  - apply (StronglySorted_fmap _ Total_Articles_ge); [done|].
    apply (StronglySorted_merge_sort _).
Qed.

(** The two alias sets have no label in common. *)
Lemma labels_disjoint c : c ∈ dem_labels → c ∈ rep_labels → False.
Proof.
  unfold dem_labels, rep_labels. set_unfold.
  intros Hd Hr. destruct_or!; simplify_eq.
Qed.

(** Over rows with non-negative counts, two disjoint selections together
    sum to at most the sum of all rows. *)
Lemma party_sums_le (g : list DomainRecord.t) :
  Forall (λ r, (0 <= DomainRecord.Combination_Total_Count r)%Z) g →
  (Zsum (counts (filter (λ r, DomainRecord.Global_Classification r ∈ dem_labels) g))
   + Zsum (counts (filter (λ r, DomainRecord.Global_Classification r ∈ rep_labels) g))
   <= Zsum (counts g))%Z.
Proof.
  induction 1 as [|r g Hr Hg IH]; [done|].
  rewrite !filter_cons, fmap_cons, Zsum_cons.
  pose proof (labels_disjoint (DomainRecord.Global_Classification r)).
  repeat case_decide; rewrite ?fmap_cons, ?Zsum_cons; try lia. tauto.
Qed.

(** In the range of int64 nothing wraps. *)
Lemma wrap64_small z : (- 2 ^ 63 <= z < 2 ^ 63)%Z → wrap64 z = z.
Proof. intros Hz. unfold wrap64. rewrite Z.mod_small; lia. Qed.

Lemma int64_sum_from acc l :
  (0 <= acc)%Z → Forall (λ x, 0 <= x)%Z l → (acc + Zsum l < 2 ^ 63)%Z →
  foldl (λ acc x, wrap64 (acc + x)) acc l = (acc + Zsum l)%Z.
Proof.
  intros Hacc Hl. revert acc Hacc.
  induction Hl as [|x l Hx Hl IH]; intros acc Hacc Hsum.
  - change (Zsum []) with 0%Z. cbn. lia.
  - rewrite Zsum_cons in Hsum. cbn [foldl].
    assert (0 <= Zsum l)%Z as Hnn.
    { clear -Hl. induction Hl as [|y l Hy Hl IH]; [done|].
      rewrite Zsum_cons. lia. }
    rewrite wrap64_small by lia.
    rewrite IH by lia. rewrite Zsum_cons. lia.
Qed.

(** The int64 sum of non-negative counts is their sum as long as it fits. *)
Lemma int64_sum_exact l :
  Forall (λ x, 0 <= x)%Z l → (Zsum l < 2 ^ 63)%Z → int64_sum l = Zsum l.
Proof. intros Hl Hsum. unfold int64_sum. by rewrite int64_sum_from. Qed.

(** A selection of rows with non-negative counts sums to at most the sum of
    all rows. *)
Lemma counts_filter_bounds (P : DomainRecord.t → Prop)
    `{!∀ r, Decision (P r)} (df : list DomainRecord.t) :
  Forall (λ r, (0 <= DomainRecord.Combination_Total_Count r)%Z) df →
  Forall (λ x, 0 <= x)%Z (counts (filter P df))
  ∧ (0 <= Zsum (counts (filter P df)) <= Zsum (counts df))%Z.
Proof.
  induction 1 as [|r df Hr Hdf (IH1 & IH2 & IH3)]; [done|].
  rewrite filter_cons, (fmap_cons _ r df), (Zsum_cons _ (counts df)).
  case_decide.
  - rewrite fmap_cons, Zsum_cons. split; [by constructor | lia].
  - split; [done | lia].
Qed.

(** C10 does not hold for every table: a negative count in a row of neither
    party lowers the total below the party counts, here 10 + 0 > 7. *)
Lemma party_articles_negative_count :
  calculate_domain_statistics
    [ DomainRecord.mk "a.com" "Democrat" "positive" "all" "economy" 5 10;
      DomainRecord.mk "a.com" "Both" "positive" "all" "economy" 4 (-3) ]
  = [ StatsRow.mk "a.com" 7 10 0 (9 # 2) 4 5 "Democrat" ]
  ∧ ¬ (StatsRow.Democrat_Articles
         (StatsRow.mk "a.com" 7 10 0 (9 # 2) 4 5 "Democrat")
       + StatsRow.Republican_Articles
           (StatsRow.mk "a.com" 7 10 0 (9 # 2) 4 5 "Democrat")
       <= StatsRow.Total_Articles
            (StatsRow.mk "a.com" 7 10 0 (9 # 2) 4 5 "Democrat"))%Z.
Proof. split; [vm_compute; reflexivity | cbn; lia]. Qed.

(** C10, amended: on a table whose Combination_Total_Count values are
    non-negative and add up to less than 2^53, every row of the statistics
    table has Democrat Articles + Republican Articles at most Total
    Articles.  Under these conditions the three columns are the int64 sums
    that the code computes (no addition wraps) and stay below 2^53, the
    range in which the float64 detour of [map] and [fillna] is exact. *)
Theorem party_articles_le_total df s :
  Forall (λ r, (0 <= DomainRecord.Combination_Total_Count r)%Z) df →
  (Zsum (counts df) < 2 ^ 53)%Z →
  s ∈ calculate_domain_statistics df →
  (StatsRow.Democrat_Articles s + StatsRow.Republican_Articles s
   <= StatsRow.Total_Articles s)%Z
  ∧ StatsRow.Total_Articles s
    = int64_sum (counts (filter (λ r, DomainRecord.Domain r = StatsRow.Domain s)
                                df))
  ∧ StatsRow.Democrat_Articles s
    = int64_sum
        (counts (filter (λ r, DomainRecord.Domain r = StatsRow.Domain s
                              ∧ DomainRecord.Global_Classification r
                                ∈ dem_labels) df))
  ∧ StatsRow.Republican_Articles s
    = int64_sum
        (counts (filter (λ r, DomainRecord.Domain r = StatsRow.Domain s
                              ∧ DomainRecord.Global_Classification r
                                ∈ rep_labels) df))
  ∧ (0 <= StatsRow.Democrat_Articles s)%Z
  ∧ (0 <= StatsRow.Republican_Articles s)%Z
  ∧ (StatsRow.Total_Articles s < 2 ^ 53)%Z.
Proof.
  intros Hpos Hfit (_ & Htot & Hdem & Hrep)%elem_of_calculate_domain_statistics.
  unfold get_group in Htot. unfold labelled in Hdem, Hrep.
  destruct (counts_filter_bounds
              (λ r, DomainRecord.Domain r = StatsRow.Domain s) df Hpos)
    as (Hall_t & Hlo_t & Hhi_t).
  destruct (counts_filter_bounds
              (λ r, DomainRecord.Domain r = StatsRow.Domain s
                    ∧ DomainRecord.Global_Classification r ∈ dem_labels) df Hpos)
    as (Hall_d & Hlo_d & Hhi_d).
  destruct (counts_filter_bounds
              (λ r, DomainRecord.Domain r = StatsRow.Domain s
                    ∧ DomainRecord.Global_Classification r ∈ rep_labels) df Hpos)
    as (Hall_r & Hlo_r & Hhi_r).
  assert (2 ^ 53 < 2 ^ 63)%Z as Hpow by done.
  rewrite !int64_sum_exact by (done || lia).
  split_and!; [| done | done | done | lia | lia | lia].
  rewrite Htot, Hdem, Hrep.
  fold (labelled dem_labels (StatsRow.Domain s) df).
  fold (labelled rep_labels (StatsRow.Domain s) df).
  fold (get_group df (StatsRow.Domain s)).
  rewrite !labelled_get_group. apply party_sums_le.
  rewrite Forall_forall in Hpos |- *.
  intros r [_ Hr]%list_elem_of_filter. by apply Hpos.
Qed.

(** A domain with a row of each kind: 10 + 4 <= 17. *)
Lemma party_articles_le_total_witness :
  let df := [ DomainRecord.mk "a.com" "Democrat" "positive" "all" "economy" 5 10;
              DomainRecord.mk "a.com" "Both" "positive" "all" "economy" 4 3;
              DomainRecord.mk "a.com" "rep" "negative" "all" "health" 3 4 ] in
  let s := StatsRow.mk "a.com" 17 10 4 4 3 5 "Democrat" in
  calculate_domain_statistics df = [s]
  ∧ (StatsRow.Democrat_Articles s + StatsRow.Republican_Articles s
     <= StatsRow.Total_Articles s)%Z.
Proof.
  intros df s.
  assert (Hrun : calculate_domain_statistics df = [s])
    by (vm_compute; reflexivity).
  split; [exact Hrun|].
  apply (party_articles_le_total df s).
  - repeat constructor; cbn; lia.
  - by vm_compute.
  - rewrite Hrun. apply list_elem_of_here.
Defined.

(** ** Rounding *)



(** ** The groups of the sunburst *)

Lemma group_key_is_Some r : is_Some (group_key r) ↔ has_key r.
Proof.
  unfold group_key, has_key.
  destruct (PostRecord.Topic_Category r), (PostRecord.Local_Category r),
    (PostRecord.Sentiment_Category r), (PostRecord.party r); cbn;
    rewrite !is_Some_alt; cbn; tauto.
Qed.

Lemma length_omap_group_key df :
  length (omap group_key df) = length (filter has_key df).
Proof.
  induction df as [|r df IH]; [done|].
  rewrite filter_cons. cbn [omap list_omap].
  pose proof (group_key_is_Some r) as Hr.
  destruct (group_key r) as [k|]; case_decide as Hk; cbn; auto.
  - exfalso. apply Hk, Hr. by eexists.
  - exfalso. apply Hr in Hk. by destruct Hk.
Qed.

Lemma Zsum_ones {A} (l : list A) :
  Zsum ((λ _, 1%Z) <$> l) = Z.of_nat (length l).
Proof.
  induction l as [|x l IH]; [done|].
  rewrite fmap_cons, Zsum_cons, IH. cbn [length]. lia.
Qed.

(** The group sizes add up to the number of rows that have a key. *)
Lemma groupby_size_total df :
  Zsum (snd <$> groupby_size df) = Z.of_nat (length (filter has_key df)).
Proof.
  unfold groupby_size. rewrite <- list_fmap_compose.
  rewrite <- length_omap_group_key.
  set (keys := omap group_key df). rewrite <- Zsum_ones.
  rewrite <- (group_sums_total (λ k : key, k) (λ _, 1%Z)
                (merge_sort key_le (remove_dups keys)) keys).
  - f_equal. apply list_fmap_ext. intros _ k _. cbn.
    unfold group_sum. by rewrite Zsum_ones.
  - rewrite merge_sort_Permutation. apply NoDup_remove_dups.
  - intros k Hk. by rewrite merge_sort_Permutation, elem_of_remove_dups.
Qed.

Lemma sunburst_data_counts posts_df filters :
  SunburstRow.count <$> sunburst_data posts_df filters
  = snd <$> groupby_size (filtered_posts posts_df filters).
Proof.
  unfold sunburst_data. rewrite <- list_fmap_compose.
  apply list_fmap_ext. by intros _ [[[[t l] s] p] c] _.
Qed.

(** The filtered percentage of a group is computed from its count and the
    number of filtered rows. *)
Lemma sunburst_data_percentage_filtered posts_df filters g :
  g ∈ sunburst_data posts_df filters →
  SunburstRow.percentage_filtered g
  = percentage (SunburstRow.count g) (total_count_filtered posts_df filters).
Proof.
  unfold sunburst_data.
  intros ([[[[t l] s] p] c] & -> & _)%list_elem_of_fmap. done.
Qed.

(** A table with a group has a row. *)
Lemma sunburst_data_nonempty posts_df filters g :
  g ∈ sunburst_data posts_df filters →
  (0 < total_count_filtered posts_df filters)%Z.
Proof.
  unfold sunburst_data, total_count_filtered.
  intros (kc & _ & Hkc)%list_elem_of_fmap.
  destruct (filtered_posts posts_df filters) as [|r rs]; cbn [length]; [|lia].
  by apply not_elem_of_nil in Hkc.
Qed.

Lemma percentage_nonzero count total :
  total ≠ 0%Z →
  percentage count total
  = Some (np_round 1 (inject_Z count / inject_Z total * 100)).
Proof. intros Hne. unfold percentage, pd_div. by rewrite decide_False. Qed.

(** ** Claims about the sunburst aggregation *)

(** C9: the counts of the sunburst groups add up to the number of filtered
    rows in which none of Topic_Category, Local_Category,
    Sentiment_Category and party is missing; the rows with a missing key,
    for instance a missing Local_Category, are part of
    total_count_filtered and of no group. *)
Theorem sunburst_counts_skip_missing_keys posts_df filters :
  Zsum (SunburstRow.count <$> sunburst_data posts_df filters)
  = Z.of_nat (length (filter has_key (filtered_posts posts_df filters)))
  ∧ total_count_filtered posts_df filters
    = (Zsum (SunburstRow.count <$> sunburst_data posts_df filters)
       + Z.of_nat (length (filter (λ r, ¬ has_key r)
                                  (filtered_posts posts_df filters))))%Z.
Proof.
  rewrite sunburst_data_counts, groupby_size_total.
  split; [done|]. unfold total_count_filtered.
  induction (filtered_posts posts_df filters) as [|r rs IH]; [done|].
  rewrite !filter_cons. cbn [length].
  repeat case_decide; cbn [length]; try tauto; lia.
Qed.

(** C7: when no row passes the posts filter the sunburst table has no
    group; and whatever the input, no group carries the non-finite value of
    a division by zero, because a group only exists when the filtered table
    has a row. *)
Theorem sunburst_of_empty_selection posts_df filters :
  (filtered_posts posts_df filters = [] →
   total_count_filtered posts_df filters = 0%Z
   ∧ sunburst_data posts_df filters = [])
  ∧ (∀ g, g ∈ sunburst_data posts_df filters →
          is_Some (SunburstRow.percentage_filtered g)
          ∧ is_Some (SunburstRow.percentage_total g)).
Proof.
  split.
  - unfold total_count_filtered, sunburst_data. by intros ->.
  - intros g Hg. pose proof (sunburst_data_nonempty _ _ _ Hg) as Hpos.
    rewrite (sunburst_data_percentage_filtered _ _ _ Hg).
    rewrite percentage_nonzero by lia. split; [by eexists|].
    assert (Z.of_nat (length posts_df) ≠ 0%Z) as Hall.
    { unfold total_count_filtered in Hpos.
      rewrite filtered_posts_passes in Hpos.
      pose proof (length_filter (post_passes filters) posts_df). lia. }
    revert Hg. unfold sunburst_data.
    intros ([[[[t l] s] p] c] & -> & _)%list_elem_of_fmap. cbn.
    rewrite percentage_nonzero by done. by eexists.
Qed.

(** A score range above every score of the sample. *)
Lemma sunburst_of_empty_selection_witness :
  filtered_posts sample_posts (all_filters 6 10) = []
  ∧ total_count_filtered sample_posts (all_filters 6 10) = 0%Z
  ∧ sunburst_data sample_posts (all_filters 6 10) = [].
Proof.
  assert (Hrun : filtered_posts sample_posts (all_filters 6 10) = [])
    by (vm_compute; reflexivity).
  split; [exact Hrun|].
  exact (proj1 (sunburst_of_empty_selection sample_posts (all_filters 6 10)) Hrun).
Defined.



Lemma filter_all {A} (P : A → Prop) `{!∀ x, Decision (P x)} (l : list A) :
  Forall P l → filter P l = l.
Proof.
  induction 1 as [|x l Hx Hl IH]; [done|].
  by rewrite filter_cons_True, IH.
Qed.





(** ** The domain search *)

Lemma is_infix_spec needle hay :
  is_infix needle hay = true ↔ ∃ pre post, hay = pre ++ needle ++ post.
Proof.
  induction hay as [|c hay IH]; cbn [is_infix];
    rewrite orb_true_iff, bool_decide_eq_true.
  - split.
    + intros [[k Hk]|?]; [|done]. by exists [], k.
    + intros (pre & post & H). left.
      destruct pre; [by exists post | done].
  - rewrite IH. split.
    + intros [[k Hk]|(pre & post & ->)]; [by exists [], k|].
      by exists (c :: pre), post.
    + intros ([|c' pre] & post & H); [left; by exists post|].
      right. exists pre, post. by simplify_eq/=.
Qed.

Lemma contains_ignoring_case_test text value :
  contains_ignoring_case text value
  ↔ is_infix (string_lower text) (string_lower value) = true.
Proof. unfold contains_ignoring_case. by rewrite is_infix_spec. Qed.

Lemma compile_ordinary (cs : list ascii) :
  Forall ordinary cs → mapM compile_char cs = Some (Lit <$> cs).
Proof.
  induction 1 as [|c cs [Hmeta Hascii] Hcs IH]; [done|].
  cbn [mapM]. rewrite IH. unfold compile_char.
  rewrite decide_False.
  - rewrite decide_False by tauto. done.
  - intros ->. apply Hmeta. unfold metachars. cbn. apply list_elem_of_here.
Qed.

Lemma match_here_literal (p s : list ascii) :
  match_here (Lit <$> p) s
  = bool_decide ((ascii_lower <$> p) `prefix_of` (ascii_lower <$> s)).
Proof.
  revert s. induction p as [|x p IH]; intros s.
  - symmetry. apply bool_decide_eq_true. apply prefix_nil.
  - destruct s as [|c s]; cbn [fmap list_fmap match_here atom_matches].
    + symmetry. apply bool_decide_eq_false. apply prefix_nil_not.
    + rewrite IH. apply eq_true_iff_eq.
      rewrite andb_true_iff, !bool_decide_eq_true. split.
      * intros [-> Hp]. by apply prefix_cons.
      * intros Hp. split; [by eapply prefix_cons_inv_1 | by eapply prefix_cons_inv_2].
Qed.

Lemma re_search_literal (p s : list ascii) :
  re_search (Lit <$> p) s = is_infix (ascii_lower <$> p) (ascii_lower <$> s).
Proof.
  induction s as [|c s IH]; cbn [re_search is_infix fmap list_fmap].
  - by rewrite match_here_literal.
  - by rewrite match_here_literal, IH.
Qed.

Lemma str_contains_literal text value :
  Forall ordinary (String.list_ascii_of_string text) →
  Forall is_ascii (String.list_ascii_of_string value) →
  str_contains text value
  = Some (is_infix (string_lower text) (string_lower value)).
Proof.
  intros Htext Hvalue. unfold str_contains, compile.
  rewrite compile_ordinary by done. cbn.
  rewrite decide_True by done. by rewrite re_search_literal.
Qed.

(** X1: for a search text of ordinary characters (ASCII, none of them
    special in a pattern) and an ASCII value, the mask computed by
    [str.contains] is the case-insensitive substring test. *)
Theorem str_contains_ordinary text value :
  Forall ordinary (String.list_ascii_of_string text) →
  Forall is_ascii (String.list_ascii_of_string value) →
  ∃ b, str_contains text value = Some b
       ∧ (b = true ↔ contains_ignoring_case text value).
Proof.
  intros Htext Hvalue. eexists. split; [by apply str_contains_literal|].
  by rewrite contains_ignoring_case_test.
Qed.

(** The text com in the value A.COM. *)
Lemma str_contains_ordinary_witness :
  ∃ b, str_contains "com" "A.COM" = Some b
       ∧ (b = true ↔ contains_ignoring_case "com" "A.COM").
Proof.
  apply (str_contains_ordinary "com" "A.COM").
  - apply (bool_decide_unpack _). vm_compute. exact I.
  - apply (bool_decide_unpack _). vm_compute. exact I.
Defined.

(** C6: the domain search, run on a table.  The text a.com keeps A.COM and
    sub.a.com.net and drops b.org, and an exact domain is applied on top of
    it; but the search also keeps abcom.org, which does not contain a.com:
    the dot of the text is read as "any character". *)
Theorem domain_search_dot_matches_any_character :
  fmap (M := option) (fmap (M := list) DomainRecord.Domain)
       (apply_domain_filters search_sample "a.com" "")
  = Some ["A.COM"; "sub.a.com.net"; "abcom.org"]
  ∧ fmap (M := option) (fmap (M := list) DomainRecord.Domain)
         (apply_domain_filters search_sample "a.com" "A.COM")
    = Some ["A.COM"]
  ∧ fmap (M := option) (fmap (M := list) StatsRow.Domain)
         (run_domain_analysis search_sample (all_filters 3 10) "a.com" "")
    = Some ["A.COM"; "abcom.org"; "sub.a.com.net"]
  ∧ contains_ignoring_case "a.com" "A.COM"
  ∧ contains_ignoring_case "a.com" "sub.a.com.net"
  ∧ ¬ contains_ignoring_case "a.com" "abcom.org"
  ∧ str_contains "a.com" "abcom.org" = Some true.
Proof.
  rewrite !contains_ignoring_case_test.
  split_and!; try (vm_compute; reflexivity).
  intros H. vm_compute in H. discriminate.
Qed.

(** * Further properties *)

(** ** The filters *)

(** X2: [filter_dataframe] keeps every row that meets the criteria: a row of
    the table whose Score lies in the range, whose fields equal the chosen
    selectors, and whose Local_Category is "all" when no Local Category is
    chosen, is in the result. *)
Theorem filter_dataframe_complete df filters r :
  r ∈ df →
  ((Filters.score_range filters).1 <= DomainRecord.Score r)%Q →
  (DomainRecord.Score r <= (Filters.score_range filters).2)%Q →
  (Filters.party filters ≠ "All" →
   DomainRecord.Global_Classification r = Filters.party filters) →
  (Filters.sentiment filters ≠ "All" →
   DomainRecord.Sentiment r = Filters.sentiment filters) →
  (Filters.local_cat filters ≠ "All" →
   DomainRecord.Local_Category r = Filters.local_cat filters) →
  (Filters.local_cat filters = "All" → DomainRecord.Local_Category r = "all") →
  (Filters.topic filters ≠ "All" →
   DomainRecord.Topic_Category r = Filters.topic filters) →
  r ∈ filter_dataframe df filters.
Proof.
  intros Hr Hlo Hhi Hparty Hsent Hlc Hall Htopic.
  apply elem_of_filter_dataframe. split; [|done].
  unfold passes, score_mask. by split_and!.
Qed.

(** The "all" row of a.com passes the filter for party Democrat. *)
Lemma filter_dataframe_complete_witness :
  DomainRecord.mk "a.com" "Democrat" "positive" "all" "economy" 5 10
  ∈ filter_dataframe sample_domains
      (Filters.mk (0, 10)%Q "Democrat" "All" "All" "All").
Proof.
  apply filter_dataframe_complete; cbn; try done.
  apply list_elem_of_here.
Defined.

(** X3: [filter_dataframe] only removes rows: the result is a sublist of the
    table (no row added, changed or moved), and filtering two tables put
    end to end is filtering each of them. *)
Theorem filter_dataframe_sublist df df' filters :
  filter_dataframe df filters `sublist_of` df
  ∧ filter_dataframe (df ++ df') filters
    = filter_dataframe df filters ++ filter_dataframe df' filters.
Proof.
  rewrite !filter_dataframe_passes. split.
  - apply sublist_filter.
  - apply filter_app.
Qed.

(** X4: two successive filterings commute: filtering by [f1] and then by
    [f2] gives the same table as filtering by [f2] and then by [f1]. *)
Theorem filter_dataframe_comm df f1 f2 :
  filter_dataframe (filter_dataframe df f1) f2
  = filter_dataframe (filter_dataframe df f2) f1.
Proof.
  rewrite !filter_dataframe_passes, !list_filter_filter.
  apply list_filter_iff. tauto.
Qed.

(** X5: a score range whose upper end is below its lower end selects
    nothing, in both pipelines. *)
Theorem empty_score_range df posts_df filters :
  ((Filters.score_range filters).2 < (Filters.score_range filters).1)%Q →
  filter_dataframe df filters = []
  ∧ filtered_posts posts_df filters = [].
Proof.
  intros Hlt. rewrite filter_dataframe_passes, filtered_posts_passes.
  split; apply filter_none; intros r _ [[Hlo Hhi] _];
    apply (Qlt_not_le _ _ Hlt); by eapply Qle_trans.
Qed.

Lemma empty_score_range_witness :
  filter_dataframe sample_domains (all_filters 10 0) = []
  ∧ filtered_posts sample_posts (all_filters 10 0) = [].
Proof. apply empty_score_range. by vm_compute. Defined.

(** Two masks that agree on the rows of a table select the same rows. *)
Lemma filter_ext_elem_of {A} (P1 P2 : A → Prop)
    `{!∀ x, Decision (P1 x), !∀ x, Decision (P2 x)} (l : list A) :
  (∀ x, x ∈ l → (P1 x ↔ P2 x)) → filter P1 l = filter P2 l.
Proof.
  induction l as [|x l IH]; intros Hiff; [done|].
  rewrite !filter_cons, IH
    by (intros y Hy; by apply Hiff, list_elem_of_further).
  apply decide_ext, Hiff, list_elem_of_here.
Qed.

(** The smallest and the largest value of a column bound every value. *)
Lemma col_min_le x xs y : y ∈ x :: xs → (col_min x xs <= y)%Q.
Proof.
  unfold col_min. revert x y.
  induction xs as [|z xs IH]; intros x y Hy; cbn.
  - apply list_elem_of_singleton in Hy as ->. apply Qle_refl.
  - assert (foldl Qmin (Qmin x z) xs <= Qmin x z)%Q as Hmin
      by apply IH, list_elem_of_here.
    apply elem_of_cons in Hy as [->|Hy].
    + eapply Qle_trans; [exact Hmin | apply Q.le_min_l].
    + apply elem_of_cons in Hy as [->|Hy].
      * eapply Qle_trans; [exact Hmin | apply Q.le_min_r].
      * apply IH. by apply list_elem_of_further.
Qed.

Lemma col_max_ge x xs y : y ∈ x :: xs → (y <= col_max x xs)%Q.
Proof.
  unfold col_max. revert x y.
  induction xs as [|z xs IH]; intros x y Hy; cbn.
  - apply list_elem_of_singleton in Hy as ->. apply Qle_refl.
  - assert (Qmax x z <= foldl Qmax (Qmax x z) xs)%Q as Hmax
      by apply IH, list_elem_of_here.
    apply elem_of_cons in Hy as [->|Hy].
    + eapply Qle_trans; [apply Q.le_max_l | exact Hmax].
    + apply elem_of_cons in Hy as [->|Hy].
      * eapply Qle_trans; [apply Q.le_max_r | exact Hmax].
      * apply IH. by apply list_elem_of_further.
Qed.

Lemma score_bounds_mask scores sr y :
  score_bounds scores = Some sr → y ∈ scores → score_mask sr y.
Proof.
  destruct scores as [|x xs]; [done|]. intros [= <-] Hy.
  split; [by apply col_min_le | by apply col_max_ge].
Qed.

(** X6: before any widget is touched, the domain page does not show the
    whole table: with the default criteria [filter_dataframe] returns
    exactly the rows whose Local_Category is "all". *)
Theorem default_filters_show_rows_tagged_all df filters :
  default_filters df = Some filters →
  filter_dataframe df filters
  = filter (λ r, DomainRecord.Local_Category r = "all") df.
Proof.
  unfold default_filters. intros Hdef.
  destruct (score_bounds (DomainRecord.Score <$> df)) as [sr|] eqn:Hsr;
    [|done].
  injection Hdef as <-. rewrite filter_dataframe_passes.
  apply filter_ext_elem_of. intros r Hr. unfold passes. cbn.
  assert (score_mask sr (DomainRecord.Score r))
    by (eapply score_bounds_mask; [done | by apply list_elem_of_fmap_2]).
  tauto.
Qed.

(** On the sample the default range is [3, 12] and two rows are tagged
    "all". *)
Lemma default_filters_show_rows_tagged_all_witness :
  default_filters sample_domains
  = Some (Filters.mk (3, 12)%Q "All" "All" "All" "All")
  ∧ filter_dataframe sample_domains (Filters.mk (3, 12)%Q "All" "All" "All" "All")
    = filter (λ r, DomainRecord.Local_Category r = "all") sample_domains.
Proof.
  assert (Hdef : default_filters sample_domains
                 = Some (Filters.mk (3, 12)%Q "All" "All" "All" "All"))
    by (vm_compute; reflexivity).
  split; [exact Hdef|]. exact (default_filters_show_rows_tagged_all _ _ Hdef).
Defined.

(** X7: whatever the user picks in the Local Category box of the domain
    page (All, local or non_local), a row whose Local_Category is none of
    all, local and non_local is never shown. *)
Theorem local_cat_options_hide_other_rows df filters r :
  Filters.local_cat filters ∈ local_cat_options →
  r ∈ filter_dataframe df filters →
  DomainRecord.Local_Category r ∈ ["all"; "local"; "non_local"].
Proof.
  intros Hopt (Hp & _)%elem_of_filter_dataframe.
  destruct Hp as (_ & _ & _ & Hlc & Hall & _).
  unfold local_cat_options in Hopt.
  apply elem_of_cons in Hopt as [Heq|Hopt];
    [|apply elem_of_cons in Hopt as [Heq|Heq%list_elem_of_singleton]].
  - rewrite (Hall Heq). apply list_elem_of_here.
  - rewrite Hlc, Heq by (by rewrite Heq).
    apply list_elem_of_further, list_elem_of_here.
  - rewrite Hlc, Heq by (by rewrite Heq).
    do 2 apply list_elem_of_further. apply list_elem_of_here.
Qed.

Lemma local_cat_options_hide_other_rows_witness :
  DomainRecord.Local_Category
    (DomainRecord.mk "b.org" "Republican" "negative" "non_local" "health" 3 4)
  ∈ ["all"; "local"; "non_local"].
Proof.
  apply (local_cat_options_hide_other_rows sample_domains
           (Filters.mk (0, 10)%Q "All" "All" "non_local" "All")).
  - apply (bool_decide_unpack _). vm_compute. exact I.
  - apply (bool_decide_unpack _). vm_compute. exact I.
Defined.

(** X8: before any widget is touched, the articles page shows every row of
    the posts table, also the rows with a missing Local_Category. *)
Theorem default_posts_filters_keep_everything posts_df filters :
  default_posts_filters posts_df = Some filters →
  filtered_posts posts_df filters = posts_df.
Proof.
  unfold default_posts_filters. intros Hdef.
  destruct (score_bounds (PostRecord.Score <$> posts_df)) as [sr|] eqn:Hsr;
    [|done].
  injection Hdef as <-. rewrite filtered_posts_passes.
  apply filter_all, Forall_forall. intros r Hr. unfold post_passes. cbn.
  assert (score_mask sr (PostRecord.Score r))
    by (eapply score_bounds_mask; [done | by apply list_elem_of_fmap_2]).
  tauto.
Qed.

Lemma default_posts_filters_keep_everything_witness :
  default_posts_filters sample_posts
  = Some (Filters.mk (3, 5)%Q "All" "All" "All" "All")
  ∧ filtered_posts sample_posts (Filters.mk (3, 5)%Q "All" "All" "All" "All")
    = sample_posts.
Proof.
  assert (Hdef : default_posts_filters sample_posts
                 = Some (Filters.mk (3, 5)%Q "All" "All" "All" "All"))
    by (vm_compute; reflexivity).
  split; [exact Hdef|]. exact (default_posts_filters_keep_everything _ _ Hdef).
Defined.

(** X9: the posts filter keeps exactly the rows in the score range whose
    party, Sentiment_Category, Local_Category and Topic_Category are
    present and equal to each chosen value; so a row in which a column is
    missing is dropped as soon as a value is chosen for that column.  The
    filter is idempotent. *)
Theorem filtered_posts_spec posts_df filters :
  (∀ r, r ∈ filtered_posts posts_df filters ↔
        r ∈ posts_df
        ∧ ((Filters.score_range filters).1 <= PostRecord.Score r)%Q
        ∧ (PostRecord.Score r <= (Filters.score_range filters).2)%Q
        ∧ (Filters.party filters ≠ "All" →
           PostRecord.party r = Some (Filters.party filters))
        ∧ (Filters.sentiment filters ≠ "All" →
           PostRecord.Sentiment_Category r = Some (Filters.sentiment filters))
        ∧ (Filters.local_cat filters ≠ "All" →
           PostRecord.Local_Category r = Some (Filters.local_cat filters))
        ∧ (Filters.topic filters ≠ "All" →
           PostRecord.Topic_Category r = Some (Filters.topic filters)))
  ∧ filtered_posts (filtered_posts posts_df filters) filters
    = filtered_posts posts_df filters.
Proof.
  rewrite !filtered_posts_passes. split.
  - intros r. rewrite list_elem_of_filter.
    unfold post_passes, score_mask. tauto.
  - apply filter_twice.
Qed.

(** ** Rounding is monotone *)

Lemma rint_floor (x : Q) :
  (Qfloor x <= rint x)%Z ∧ (rint x <= Qfloor x + 1)%Z.
Proof.
  unfold rint.
  destruct (x - inject_Z (Qfloor x) ?= 1 # 2)%Q;
    [destruct (Z.even (Qfloor x))|..]; lia.
Qed.

Lemma rint_mono (x y : Q) : (x <= y)%Q → (rint x <= rint y)%Z.
Proof.
  intros Hxy. pose proof (Qfloor_resp_le _ _ Hxy) as Hf.
  destruct (decide (Qfloor x = Qfloor y)) as [Heq|Hne].
  - unfold rint. rewrite Heq.
    destruct (Qcompare_spec (x - inject_Z (Qfloor y)) (1 # 2)),
      (Qcompare_spec (y - inject_Z (Qfloor y)) (1 # 2));
      destruct (Z.even (Qfloor y)); try lia; exfalso; lra.
  - pose proof (rint_floor x). pose proof (rint_floor y). lia.
Qed.

Lemma scale_pos (decimals : nat) : (0 < inject_Z (10 ^ Z.of_nat decimals))%Q.
Proof.
  change 0%Q with (inject_Z 0). rewrite <- Zlt_Qlt.
  apply Z.pow_pos_nonneg; lia.
Qed.

Lemma np_round_mono decimals (x y : Q) :
  (x <= y)%Q → (np_round decimals x <= np_round decimals y)%Q.
Proof.
  intros Hxy. unfold np_round. rewrite !Qred_correct.
  pose proof (scale_pos decimals) as Hpos.
  set (scale := inject_Z (10 ^ Z.of_nat decimals)) in *.
  apply Qmult_le_compat_r.
  - rewrite <- Zle_Qle. apply rint_mono.
    apply Qmult_le_compat_r; [done|]. by apply Qlt_le_weak.
  - apply Qlt_le_weak, Qinv_lt_0_compat, Hpos.
Qed.

(** ** More on the statistics table *)

(** An aggregated row comes from a non-empty group. *)
Lemma agg_rows_inv df a :
  a ∈ agg_rows df →
  ∃ r rs,
    get_group df (AggRow.Domain a) = r :: rs
    ∧ AggRow.Average_Score a
      = np_round 2 (mean (DomainRecord.Score r) (DomainRecord.Score <$> rs))
    ∧ AggRow.Min_Score a
      = np_round 2 (col_min (DomainRecord.Score r) (DomainRecord.Score <$> rs))
    ∧ AggRow.Max_Score a
      = np_round 2 (col_max (DomainRecord.Score r) (DomainRecord.Score <$> rs))
    ∧ AggRow.Party a = DomainRecord.Global_Classification r.
Proof.
  intros (d & Hd & Ha)%list_elem_of_omap.
  destruct (get_group df d) as [|r rs] eqn:Hg; [done|].
  injection Ha as <-. cbn. exists r, rs. by rewrite Hg.
Qed.

Lemma elem_of_calculate_domain_statistics_agg df s :
  s ∈ calculate_domain_statistics df →
  ∃ a, a ∈ agg_rows df ∧ s = add_party_counts df a.
Proof.
  rewrite calculate_domain_statistics_unfold.
  intros (a & -> & Ha)%list_elem_of_fmap.
  rewrite merge_sort_Permutation in Ha. by exists a.
Qed.

Lemma agg_rows_domains df (keys : list string) :
  (∀ d, d ∈ keys → d ∈ DomainRecord.Domain <$> df) →
  AggRow.Domain <$> omap (λ d, agg d (get_group df d)) keys = keys.
Proof.
  induction keys as [|d keys IH]; intros Hin; [done|].
  destruct (agg_is_Some d (get_group df d)) as [a Ha].
  { apply get_group_nonempty, Hin, list_elem_of_here. }
  cbn [omap list_omap]. rewrite Ha. cbn [fmap list_fmap].
  apply agg_Some in Ha as [-> _]. f_equal.
  apply IH. intros d' Hd'. by apply Hin, list_elem_of_further.
Qed.

Lemma stats_domains_Permutation df :
  StatsRow.Domain <$> calculate_domain_statistics df ≡ₚ group_keys df.
Proof.
  rewrite calculate_domain_statistics_unfold, <- list_fmap_compose.
  rewrite (list_fmap_ext _ AggRow.Domain) by done.
  rewrite merge_sort_Permutation. unfold agg_rows.
  by rewrite agg_rows_domains by (intros d; apply elem_of_group_keys).
Qed.

(** X10: the statistics table has one row per domain: no domain appears
    twice in its Domain column, and a domain is in that column exactly when
    some row of the input has it. *)
Theorem domain_statistics_one_row_per_domain df :
  NoDup (StatsRow.Domain <$> calculate_domain_statistics df)
  ∧ (∀ d, d ∈ StatsRow.Domain <$> calculate_domain_statistics df
          ↔ d ∈ DomainRecord.Domain <$> df).
Proof.
  split.
  - rewrite stats_domains_Permutation. apply NoDup_group_keys.
  - intros d. rewrite stats_domains_Permutation. apply elem_of_group_keys.
Qed.






(** X12: the Party of a row of the statistics table is the
    Global_Classification of the first input row of that domain, whatever
    the later rows of the domain say. *)
Theorem domain_statistics_party_is_first df s :
  s ∈ calculate_domain_statistics df →
  DomainRecord.Global_Classification
    <$> head (filter (λ r, DomainRecord.Domain r = StatsRow.Domain s) df)
  = Some (StatsRow.Party s).
Proof.
  intros (a & Ha & ->)%elem_of_calculate_domain_statistics_agg.
  apply agg_rows_inv in Ha as (r & rs & Hg & _ & _ & _ & Hparty).
  cbn. unfold get_group in Hg. rewrite Hg. cbn. by rewrite Hparty.
Qed.

Lemma domain_statistics_party_is_first_witness :
  let df := [ DomainRecord.mk "a.com" "Republican" "positive" "all" "economy" 5 1;
              DomainRecord.mk "a.com" "Democrat" "positive" "all" "economy" 4 9 ] in
  let s := StatsRow.mk "a.com" 10 9 1 (9 # 2) 4 5 "Republican" in
  calculate_domain_statistics df = [s]
  ∧ DomainRecord.Global_Classification
      <$> head (filter (λ r, DomainRecord.Domain r = StatsRow.Domain s) df)
    = Some (StatsRow.Party s).
Proof.
  intros df s.
  assert (Hrun : calculate_domain_statistics df = [s])
    by (vm_compute; reflexivity).
  split; [exact Hrun|].
  apply domain_statistics_party_is_first. rewrite Hrun. apply list_elem_of_here.
Defined.




Lemma group_counts_Permutation df df' d :
  df ≡ₚ df' →
  Zsum (counts (get_group df d)) = Zsum (counts (get_group df' d)).
Proof.
  intros Hperm. apply Zsum_Permutation. unfold get_group. by rewrite Hperm.
Qed.

Lemma labelled_counts_Permutation labels df df' d :
  df ≡ₚ df' →
  Zsum (counts (labelled labels d df)) = Zsum (counts (labelled labels d df')).
Proof.
  intros Hperm. apply Zsum_Permutation. unfold labelled. by rewrite Hperm.
Qed.

(** X14: the three article counts of a domain do not depend on the order of
    the input rows: after any reordering of the table, the statistics table
    has a row with the same Domain, Total Articles, Democrat Articles and
    Republican Articles. *)
Theorem domain_statistics_counts_row_order df df' s :
  df ≡ₚ df' →
  s ∈ calculate_domain_statistics df →
  ∃ s', s' ∈ calculate_domain_statistics df'
        ∧ StatsRow.Domain s' = StatsRow.Domain s
        ∧ StatsRow.Total_Articles s' = StatsRow.Total_Articles s
        ∧ StatsRow.Democrat_Articles s' = StatsRow.Democrat_Articles s
        ∧ StatsRow.Republican_Articles s' = StatsRow.Republican_Articles s.
Proof.
  intros Hperm Hs.
  pose proof (elem_of_calculate_domain_statistics _ _ Hs)
    as (Hd & Htot & Hdem & Hrep).
  assert (StatsRow.Domain s
          ∈ StatsRow.Domain <$> calculate_domain_statistics df') as Hd'.
  { rewrite stats_domains_Permutation, elem_of_group_keys. by rewrite <- Hperm. }
  apply list_elem_of_fmap in Hd' as (s' & Heq & Hs').
  exists s'. split; [done|].
  pose proof (elem_of_calculate_domain_statistics _ _ Hs')
    as (_ & Htot' & Hdem' & Hrep').
  rewrite Htot', Hdem', Hrep', Htot, Hdem, Hrep, <- Heq.
  split_and!; [done | | |]; symmetry.
  - by apply group_counts_Permutation.
  - by apply labelled_counts_Permutation.
  - by apply labelled_counts_Permutation.
Qed.

Lemma domain_statistics_counts_row_order_witness :
  let r1 := DomainRecord.mk "a.com" "Republican" "positive" "all" "economy" 5 1 in
  let r2 := DomainRecord.mk "a.com" "Democrat" "positive" "all" "economy" 4 9 in
  calculate_domain_statistics [r1; r2]
  = [StatsRow.mk "a.com" 10 9 1 (9 # 2) 4 5 "Republican"]
  ∧ calculate_domain_statistics [r2; r1]
    = [StatsRow.mk "a.com" 10 9 1 (9 # 2) 4 5 "Democrat"]
  ∧ ∃ s', s' ∈ calculate_domain_statistics [r2; r1]
          ∧ StatsRow.Domain s' = "a.com"
          ∧ StatsRow.Total_Articles s' = 10%Z
          ∧ StatsRow.Democrat_Articles s' = 9%Z
          ∧ StatsRow.Republican_Articles s' = 1%Z.
Proof.
  intros r1 r2.
  assert (Hrun : calculate_domain_statistics [r1; r2]
                 = [StatsRow.mk "a.com" 10 9 1 (9 # 2) 4 5 "Republican"])
    by (vm_compute; reflexivity).
  split; [exact Hrun|]. split; [vm_compute; reflexivity|].
  apply (domain_statistics_counts_row_order [r1; r2] [r2; r1]
           (StatsRow.mk "a.com" 10 9 1 (9 # 2) 4 5 "Republican")).
  - apply Permutation_swap.
  - rewrite Hrun. apply list_elem_of_here.
Defined.

(** ** [Series.unique] *)

Lemma elem_of_unique {A} `{!EqDecision A} (l : list A) x :
  x ∈ unique l ↔ x ∈ l.
Proof.
  induction l as [|y l IH]; [done|].
  cbn [unique]. rewrite !elem_of_cons, list_elem_of_filter, IH.
  destruct (decide (x = y)); tauto.
Qed.

Lemma NoDup_unique {A} `{!EqDecision A} (l : list A) : NoDup (unique l).
Proof.
  induction l as [|y l IH]; cbn [unique]; constructor.
  - rewrite list_elem_of_filter. tauto.
  - by apply NoDup_filter.
Qed.

Lemma unique_Permutation_remove_dups {A} `{!EqDecision A} (l : list A) :
  unique l ≡ₚ remove_dups l.
Proof.
  apply NoDup_Permutation; [apply NoDup_unique | apply NoDup_remove_dups|].
  intros x. by rewrite elem_of_unique, elem_of_remove_dups.
Qed.

(** The Total Articles column adds up to the articles of the table. *)
Lemma stats_totals_sum df :
  Zsum (StatsRow.Total_Articles <$> calculate_domain_statistics df)
  = Zsum (counts df).
Proof.
  rewrite calculate_domain_statistics_unfold, <- list_fmap_compose.
  rewrite (list_fmap_ext _ AggRow.Total_Articles) by done.
  rewrite (Zsum_Permutation _ (AggRow.Total_Articles <$> agg_rows df))
    by (by rewrite merge_sort_Permutation).
  unfold agg_rows.
  rewrite agg_rows_totals by (intros d; apply elem_of_group_keys).
  apply (group_sums_total DomainRecord.Domain
           DomainRecord.Combination_Total_Count); [apply NoDup_group_keys|].
  intros r Hr. apply elem_of_group_keys. by apply list_elem_of_fmap_2.
Qed.

(** X15: the sidebar figures of [show_debug_info] agree with the statistics
    table computed from the same rows: Unique Domains is the number of rows
    of the table, Total Articles is the sum of its Total Articles column,
    and there are at most as many domains as entries. *)
Theorem debug_info_matches_statistics df :
  DebugInfo.unique_domains (show_debug_info df)
  = length (calculate_domain_statistics df)
  ∧ DebugInfo.total_articles (show_debug_info df)
    = Zsum (StatsRow.Total_Articles <$> calculate_domain_statistics df)
  ∧ DebugInfo.unique_domains (show_debug_info df)
    ≤ DebugInfo.total_entries (show_debug_info df).
Proof.
  cbn. split_and!.
  - rewrite <- (length_fmap StatsRow.Domain), stats_domains_Permutation.
    by rewrite group_keys_Permutation, unique_Permutation_remove_dups.
  - by rewrite stats_totals_sum.
  - rewrite <- (length_fmap DomainRecord.Domain df).
    apply submseteq_length, NoDup_submseteq; [apply NoDup_unique|].
    intros d. by rewrite elem_of_unique.
Qed.

(** ** The bar charts *)

Lemma groupby_pair_sum_total col df :
  Zsum (snd <$> groupby_pair_sum col df) = Zsum (counts df).
Proof.
  unfold groupby_pair_sum. rewrite <- list_fmap_compose.
  set (key r := (col r, DomainRecord.Global_Classification r)).
  set (keys := merge_sort pair_le (remove_dups (key <$> df))).
  rewrite <- (group_sums_total key DomainRecord.Combination_Total_Count keys df).
  - done.
  - unfold keys. rewrite merge_sort_Permutation. apply NoDup_remove_dups.
  - intros r Hr. unfold keys.
    rewrite merge_sort_Permutation, elem_of_remove_dups.
    by apply list_elem_of_fmap_2.
Qed.

Lemma groupby_pair_sum_keys col df :
  (λ g, (g.1.1, g.1.2)) <$> groupby_pair_sum col df
  ≡ₚ remove_dups ((λ r, (col r, DomainRecord.Global_Classification r)) <$> df).
Proof.
  unfold groupby_pair_sum. rewrite <- list_fmap_compose.
  rewrite (list_fmap_ext _ id) by (by intros _ [??] _).
  by rewrite list_fmap_id, merge_sort_Permutation.
Qed.

(** X16: the two distribution charts account for every article of the
    filtered table once: the bars of the topic chart and the bars of the
    sentiment chart both add up to the sum of Combination_Total_Count, and
    no (category, party) pair has two bars. *)
Theorem distributions_account_for_all_articles filtered_df :
  Zsum (snd <$> topic_dist filtered_df) = Zsum (counts filtered_df)
  ∧ Zsum (snd <$> sentiment_dist filtered_df) = Zsum (counts filtered_df)
  ∧ NoDup ((λ g, (g.1.1, g.1.2)) <$> topic_dist filtered_df)
  ∧ NoDup ((λ g, (g.1.1, g.1.2)) <$> sentiment_dist filtered_df).
Proof.
  unfold topic_dist, sentiment_dist. split_and!.
  - apply groupby_pair_sum_total.
  - apply groupby_pair_sum_total.
  - rewrite groupby_pair_sum_keys. apply NoDup_remove_dups.
  - rewrite groupby_pair_sum_keys. apply NoDup_remove_dups.
Qed.

(** ** More on the sunburst table *)

Lemma elem_of_groupby_size df k c :
  (k, c) ∈ groupby_size df →
  k ∈ omap group_key df
  ∧ c = Z.of_nat (length (filter (λ r, group_key r = Some k) df)).
Proof.
  unfold groupby_size. intros (k' & [= <- ->] & Hk)%list_elem_of_fmap.
  rewrite merge_sort_Permutation, elem_of_remove_dups in Hk.
  split; [done|]. f_equal. clear Hk.
  induction df as [|r df IH]; [done|].
  rewrite (filter_cons (λ r, group_key r = Some k)). cbn [omap list_omap].
  destruct (group_key r) as [k'|].
  - rewrite filter_cons.
    destruct (decide (k' = k)) as [->|Hne].
    + rewrite decide_True by done. cbn [length]. by rewrite IH.
    + rewrite decide_False by congruence. done.
  - rewrite decide_False by done. done.
Qed.

Lemma groupby_size_keys df : fst <$> groupby_size df ≡ₚ remove_dups (omap group_key df).
Proof.
  unfold groupby_size. rewrite <- list_fmap_compose.
  rewrite (list_fmap_ext _ id) by done.
  by rewrite list_fmap_id, merge_sort_Permutation.
Qed.

(** A group has at least one row and at most all of them. *)
Lemma groupby_size_bounds df k c :
  (k, c) ∈ groupby_size df → (1 <= c <= Z.of_nat (length df))%Z.
Proof.
  intros [Hk ->]%elem_of_groupby_size.
  apply list_elem_of_omap in Hk as (r & Hr & Hkey).
  pose proof (length_filter (λ r, group_key r = Some k) df).
  assert (r ∈ filter (λ r, group_key r = Some k) df) as Hin
    by (by apply list_elem_of_filter).
  destruct (filter _ df); [by apply not_elem_of_nil in Hin|].
  cbn [length] in *. lia.
Qed.

(** Sharing a count over a larger total gives a smaller share. *)
Lemma share_anti (a tf ta : Q) :
  (0 <= a)%Q → (0 < tf)%Q → (tf <= ta)%Q →
  (a / ta * 100 <= a / tf * 100)%Q.
Proof.
  intros Ha Htf Hta.
  assert (0 < ta)%Q as Hpos by (by eapply Qlt_le_trans).
  apply Qmult_le_compat_r; [|done].
  apply Qle_shift_div_l; [done|].
  assert (a / ta * tf == a * tf / ta)%Q as ->
    by (field; intros H0; rewrite H0 in Hpos; by apply Qlt_irrefl in Hpos).
  apply Qle_shift_div_r; [done|].
  rewrite !(Qmult_comm a). by apply Qmult_le_compat_r.
Qed.

Lemma share_le_100 (a t : Q) :
  (0 < t)%Q → (a <= t)%Q → (a / t * 100 <= 100)%Q.
Proof.
  intros Ht Hat.
  apply (Qle_trans _ (1 * 100)); [|done].
  apply Qmult_le_compat_r; [|done].
  apply Qle_shift_div_r; [done|]. by rewrite Qmult_1_l.
Qed.

Lemma share_nonneg (a t : Q) :
  (0 <= a)%Q → (0 < t)%Q → (0 <= a / t * 100)%Q.
Proof.
  intros Ha Ht. apply Qmult_le_0_compat; [|done].
  apply Qle_shift_div_l; [done|]. by rewrite Qmult_0_l.
Qed.

(** X17: every group of the sunburst table has both percentages, and they
    are ordered: 0 <= percentage_total <= percentage_filtered <= 100. *)
Theorem sunburst_percentages_ordered posts_df filters g :
  g ∈ sunburst_data posts_df filters →
  ∃ pt pf,
    SunburstRow.percentage_total g = Some pt
    ∧ SunburstRow.percentage_filtered g = Some pf
    ∧ (0 <= pt)%Q ∧ (pt <= pf)%Q ∧ (pf <= 100)%Q.
Proof.
  unfold sunburst_data.
  intros ([[[[t l] s] p] c] & -> & Hg)%list_elem_of_fmap. cbn.
  pose proof (groupby_size_bounds _ _ _ Hg) as [Hc1 Hc2].
  assert (length (filtered_posts posts_df filters) ≤ length posts_df) as Hlen
    by (rewrite filtered_posts_passes; apply length_filter).
  set (Tf := Z.of_nat (length (filtered_posts posts_df filters))) in *.
  set (Ta := Z.of_nat (length posts_df)).
  assert (Tf <= Ta)%Z as HT by (unfold Tf, Ta; lia).
  rewrite !percentage_nonzero by lia.
  eexists _, _. split_and!; [done | done | | |].
  - change 0%Q with (np_round 1 0). apply np_round_mono.
    apply share_nonneg; change 0%Q with (inject_Z 0);
      [rewrite <- Zle_Qle | rewrite <- Zlt_Qlt]; lia.
  - apply np_round_mono, share_anti; rewrite <- ?Zle_Qle; try lia.
    + change 0%Q with (inject_Z 0). rewrite <- Zle_Qle. lia.
    + change 0%Q with (inject_Z 0). rewrite <- Zlt_Qlt. lia.
  - change 100%Q with (np_round 1 100). apply np_round_mono.
    apply share_le_100; [|rewrite <- Zle_Qle; lia].
    change 0%Q with (inject_Z 0). rewrite <- Zlt_Qlt. lia.
Qed.

Lemma sunburst_percentages_ordered_witness :
  let g := SunburstRow.mk "economy" "local" "positive" "dem" 1
             (Some (333 # 10)%Q) (Some 100%Q) in
  sunburst_data sample_posts (all_filters 5 10) = [g]
  ∧ ∃ pt pf,
      SunburstRow.percentage_total g = Some pt
      ∧ SunburstRow.percentage_filtered g = Some pf
      ∧ (0 <= pt)%Q ∧ (pt <= pf)%Q ∧ (pf <= 100)%Q.
Proof.
  intros g.
  assert (Hrun : sunburst_data sample_posts (all_filters 5 10) = [g])
    by (vm_compute; reflexivity).
  split; [exact Hrun|].
  apply (sunburst_percentages_ordered sample_posts (all_filters 5 10)).
  rewrite Hrun. apply list_elem_of_here.
Defined.

Lemma sunburst_data_keys posts_df filters :
  sunburst_key <$> sunburst_data posts_df filters
  = fst <$> groupby_size (filtered_posts posts_df filters).
Proof.
  unfold sunburst_data. rewrite <- list_fmap_compose.
  apply list_fmap_ext. by intros _ [[[[t l] s] p] c] _.
Qed.

Lemma elem_of_sunburst_data posts_df filters g :
  g ∈ sunburst_data posts_df filters →
  (sunburst_key g, SunburstRow.count g)
  ∈ groupby_size (filtered_posts posts_df filters).
Proof.
  unfold sunburst_data.
  by intros ([[[[t l] s] p] c] & -> & Hg)%list_elem_of_fmap.
Qed.

(** X18: the groups of the sunburst table are the distinct keys of the
    filtered rows: no key has two groups, the count of a group is the
    number of filtered rows with its key (at least one), and every filtered
    row with a complete key belongs to a group. *)
Theorem sunburst_groups_are_the_keys posts_df filters :
  NoDup (sunburst_key <$> sunburst_data posts_df filters)
  ∧ (∀ g, g ∈ sunburst_data posts_df filters →
          SunburstRow.count g
          = Z.of_nat (length (filter (λ r, group_key r = Some (sunburst_key g))
                                     (filtered_posts posts_df filters)))
          ∧ (1 <= SunburstRow.count g)%Z)
  ∧ (∀ r k, r ∈ filtered_posts posts_df filters →
            group_key r = Some k →
            k ∈ sunburst_key <$> sunburst_data posts_df filters).
Proof.
  split_and!.
  - rewrite sunburst_data_keys, groupby_size_keys. apply NoDup_remove_dups.
  - intros g Hg%elem_of_sunburst_data. split.
    + by apply elem_of_groupby_size in Hg as [_ ->].
    + by apply groupby_size_bounds in Hg as [? _].
  - intros r k Hr Hk.
    rewrite sunburst_data_keys, groupby_size_keys, elem_of_remove_dups.
    apply list_elem_of_omap. by exists r.
Qed.

(** ** The summary by party *)

Lemma length_filter_omap {A K} `{!EqDecision K} (f : A → option K)
    (l : list A) (k : K) :
  length (filter (λ k', k' = k) (omap f l))
  = length (filter (λ x, f x = Some k) l).
Proof.
  induction l as [|x l IH]; [done|].
  rewrite (filter_cons (λ x, f x = Some k)). cbn [omap list_omap].
  destruct (f x) as [k'|].
  - rewrite filter_cons.
    destruct (decide (k' = k)) as [->|Hne].
    + rewrite decide_True by done. cbn [length]. by rewrite IH.
    + rewrite decide_False by congruence. done.
  - rewrite decide_False by done. done.
Qed.

Lemma length_omap_filter {A K} (f : A → option K) (l : list A) :
  length (omap f l) = length (filter (λ x, is_Some (f x)) l).
Proof.
  induction l as [|x l IH]; [done|].
  rewrite filter_cons. cbn [omap list_omap].
  destruct (f x) as [k|]; cbn.
  - rewrite decide_True by (by eexists). cbn. by rewrite IH.
  - rewrite decide_False by (by intros [??]). done.
Qed.

Lemma length_filter_impl {A} (P Q : A → Prop)
    `{!∀ x, Decision (P x), !∀ x, Decision (Q x)} (l : list A) :
  (∀ x, P x → Q x) → length (filter P l) ≤ length (filter Q l).
Proof.
  intros HPQ. induction l as [|x l IH]; [done|].
  rewrite !filter_cons.
  destruct (decide (P x)) as [HP|HP].
  - rewrite decide_True by auto. cbn. lia.
  - destruct (decide (Q x)); cbn; lia.
Qed.

Lemma party_stats_totals (df : list PostRecord.t) (keys : list string) :
  (∀ p, p ∈ keys → p ∈ omap PostRecord.party df) →
  PartyStats.Total_Articles
    <$> omap (λ p, match filter (λ r, PostRecord.party r = Some p) df with
                   | [] => None
                   | r :: rs =>
                       Some {|
                         PartyStats.party := p;
                         PartyStats.Total_Articles := Z.of_nat (length (r :: rs));
                         PartyStats.Average_Score :=
                           np_round 2 (mean (PostRecord.Score r)
                                            (PostRecord.Score <$> rs));
                         PartyStats.Average_Sentiment :=
                           np_round 2 (mean (PostRecord.ave_sentiment r)
                                            (PostRecord.ave_sentiment <$> rs))
                       |}
                   end) keys
  = (λ p, Z.of_nat (length (filter (λ r, PostRecord.party r = Some p) df)))
      <$> keys.
Proof.
  induction keys as [|p keys IH]; intros Hin; [done|].
  cbn [omap list_omap fmap list_fmap].
  assert (p ∈ omap PostRecord.party df) as (r & Hr & Hp)%list_elem_of_omap
    by apply Hin, list_elem_of_here.
  assert (r ∈ filter (λ r, PostRecord.party r = Some p) df) as Hrin
    by (by apply list_elem_of_filter).
  destruct (filter (λ r, PostRecord.party r = Some p) df) as [|r' rs] eqn:Hg;
    [by apply not_elem_of_nil in Hrin|].
  cbn [fmap list_fmap option_fmap option_map PartyStats.Total_Articles].
  f_equal. apply IH. intros p' Hp'. by apply Hin, list_elem_of_further.
Qed.

Lemma party_stats_sum df :
  Zsum (PartyStats.Total_Articles <$> party_stats df)
  = Z.of_nat (length (filter (λ r, is_Some (PostRecord.party r)) df)).
Proof.
  unfold party_stats.
  set (ps := omap PostRecord.party df).
  rewrite party_stats_totals
    by (intros p; by rewrite merge_sort_Permutation, elem_of_remove_dups).
  rewrite <- length_omap_filter. fold ps. rewrite <- Zsum_ones.
  rewrite <- (group_sums_total (λ p : string, p) (λ _, 1%Z)
                (merge_sort String.le (remove_dups ps)) ps).
  - f_equal. apply list_fmap_ext. intros _ p _.
    unfold group_sum. rewrite Zsum_ones. unfold ps.
    by rewrite (length_filter_omap PostRecord.party).
  - rewrite merge_sort_Permutation. apply NoDup_remove_dups.
  - intros p Hp. by rewrite merge_sort_Permutation, elem_of_remove_dups.
Qed.

(** X19: the summary by party counts every filtered article that has a
    party, once: its Total Articles column adds up to the number of
    filtered rows with a party.  Hence the sunburst counts add up to at most
    that sum, which is at most the number of filtered rows. *)
Theorem party_stats_counts posts_df filters :
  Zsum (PartyStats.Total_Articles
          <$> party_stats (filtered_posts posts_df filters))
  = Z.of_nat (length (filter (λ r, is_Some (PostRecord.party r))
                             (filtered_posts posts_df filters)))
  ∧ (Zsum (SunburstRow.count <$> sunburst_data posts_df filters)
     <= Zsum (PartyStats.Total_Articles
                <$> party_stats (filtered_posts posts_df filters)))%Z
  ∧ (Zsum (PartyStats.Total_Articles
             <$> party_stats (filtered_posts posts_df filters))
     <= total_count_filtered posts_df filters)%Z.
Proof.
  rewrite party_stats_sum, sunburst_data_counts, groupby_size_total.
  unfold total_count_filtered. split_and!; [done | |].
  - apply inj_le, length_filter_impl. by intros r (_ & _ & _ & Hp).
  - apply inj_le, length_filter.
Qed.

(** ** More on the domain search *)

Lemma filter_mask_Some mask df out :
  filter_mask mask df = Some out →
  out = filter (λ r, mask r = Some true) df.
Proof.
  revert out. induction df as [|r df IH]; intros out; cbn [filter_mask].
  - by intros [= <-].
  - destruct (mask r) as [b|] eqn:Hb; [|done]. cbn [mbind option_bind].
    destruct (filter_mask mask df) as [rest|]; [|done]. cbn [mbind option_bind].
    intros [= <-]. rewrite filter_cons, (IH rest eq_refl).
    destruct b; case_decide; congruence.
Qed.

(** X20: whatever mask [str.contains] returns, the domain narrowing only
    removes rows: the result is a sublist of the filtered table; every row
    of it has the exact domain when one is selected; with no search text
    the result is the selection of the exact domain, and with neither the
    table is unchanged.  Where the pattern model answers,
    [apply_domain_filters] is this narrowing with the model's mask. *)
Theorem domain_narrowing_sound (contains : string → string → bool)
    filtered_df search_text exact_domain :
  narrow_domains contains filtered_df search_text exact_domain
    `sublist_of` filtered_df
  ∧ (exact_domain ≠ "" →
     ∀ r, r ∈ narrow_domains contains filtered_df search_text exact_domain →
          DomainRecord.Domain r = exact_domain)
  ∧ (search_text = "" →
     narrow_domains contains filtered_df search_text exact_domain
     = if decide (exact_domain ≠ "")
       then filter (λ r, DomainRecord.Domain r = exact_domain) filtered_df
       else filtered_df)
  ∧ (∀ out,
       apply_domain_filters filtered_df search_text exact_domain = Some out →
       out = narrow_domains
               (λ text value, bool_decide (str_contains text value = Some true))
               filtered_df search_text exact_domain).
Proof.
  unfold narrow_domains, apply_domain_filters. split_and!.
  - repeat case_decide; try done;
      try (etrans; apply sublist_filter); apply sublist_filter.
  - intros He. rewrite (decide_True (P := exact_domain ≠ "")) by done.
    by intros r [? _]%list_elem_of_filter.
  - intros ->. by rewrite (decide_False (P := "" ≠ "")) by (by intros H).
  - intros out Hout.
    destruct (decide (search_text ≠ "")) as [Ht|Ht].
    + destruct (filter_mask _ filtered_df) as [searched|] eqn:Hs; [|done].
      apply filter_mask_Some in Hs as ->. cbn in Hout. injection Hout as <-.
      rewrite (list_filter_iff
                 (λ r, bool_decide
                         (str_contains search_text (DomainRecord.Domain r)
                          = Some true) = true)
                 (λ r, str_contains search_text (DomainRecord.Domain r)
                       = Some true))
        by (intros r; apply bool_decide_eq_true).
      done.
    + cbn in Hout. by injection Hout as <-.
Qed.

Lemma NoDup_constant {A} (l : list A) (d : A) :
  NoDup l → (∀ x, x ∈ l → x = d) → d ∈ l → l = [d].
Proof.
  intros Hnd Hall Hd. destruct l as [|x l]; [by apply not_elem_of_nil in Hd|].
  rewrite (Hall x) in * by apply list_elem_of_here.
  apply NoDup_cons in Hnd as [Hnin _].
  destruct l as [|y l]; [done|].
  exfalso. apply Hnin. rewrite (Hall y); [apply list_elem_of_here|].
  apply list_elem_of_further, list_elem_of_here.
Qed.

(** X21: choosing a domain offered by the exact-domain box, with no search
    text, leaves a statistics table of exactly one row: the row of that
    domain, with the total over its filtered rows. *)
Theorem exact_domain_single_row filtered_df d :
  d ∈ all_domains filtered_df →
  d ≠ "" →
  ∃ s,
    calculate_domain_statistics
      <$> apply_domain_filters filtered_df "" d
    = Some [s]
    ∧ StatsRow.Domain s = d
    ∧ StatsRow.Total_Articles s
      = Zsum (counts (filter (λ r, DomainRecord.Domain r = d) filtered_df)).
Proof.
  intros Hd Hne. unfold all_domains in Hd.
  rewrite merge_sort_Permutation, elem_of_unique in Hd.
  unfold apply_domain_filters.
  rewrite decide_False by (by intros H; apply H). cbn.
  rewrite decide_True by done.
  set (g := filter (λ r, DomainRecord.Domain r = d) filtered_df).
  assert (StatsRow.Domain <$> calculate_domain_statistics g = [d]) as Hdom.
  { apply NoDup_constant.
    - rewrite stats_domains_Permutation. apply NoDup_group_keys.
    - intros d'. rewrite stats_domains_Permutation, elem_of_group_keys.
      intros (r & -> & Hr)%list_elem_of_fmap.
      by apply list_elem_of_filter in Hr as [? _].
    - rewrite stats_domains_Permutation, elem_of_group_keys.
      apply list_elem_of_fmap in Hd as (r & -> & Hr).
      apply list_elem_of_fmap_2. by apply list_elem_of_filter. }
  destruct (calculate_domain_statistics g) as [|s [|s' rest]] eqn:Hstats;
    try done.
  injection Hdom as Hs. exists s. split_and!; [done | done |].
  assert (s ∈ calculate_domain_statistics g) as Hin
    by (rewrite Hstats; apply list_elem_of_here).
  apply elem_of_calculate_domain_statistics in Hin as (_ & -> & _).
  rewrite Hs. unfold get_group, g. by rewrite filter_twice.
Qed.

Lemma exact_domain_single_row_witness :
  all_domains sample_domains = ["a.com"; "b.org"]
  ∧ ∃ s,
      calculate_domain_statistics
        <$> apply_domain_filters sample_domains "" "b.org"
      = Some [s]
      ∧ StatsRow.Domain s = "b.org"
      ∧ StatsRow.Total_Articles s
        = Zsum (counts (filter (λ r, DomainRecord.Domain r = "b.org")
                               sample_domains)).
Proof.
  split; [vm_compute; reflexivity|].
  apply exact_domain_single_row.
  - apply (bool_decide_unpack _). vm_compute. exact I.
  - done.
Defined.

(** Facts about single characters, checked on all 256 of them. *)
Ltac all_chars c := destruct c as [[] [] [] [] [] [] [] []]; vm_compute.

Lemma ascii_lower_idemp c : ascii_lower (ascii_lower c) = ascii_lower c.
Proof. all_chars c; reflexivity. Qed.

Lemma compile_char_lower c :
  compile_char (ascii_lower c)
  = match compile_char c with
    | Some (Lit x) => Some (Lit (ascii_lower x))
    | other => other
    end.
Proof.
  unfold compile_char, is_ascii.
  pose proof (bool_decide_decide (ascii_lower c = "."%char)) as H1.
  pose proof (bool_decide_decide (c = "."%char)) as H2.
  pose proof (bool_decide_decide
                (ascii_lower c ∈ metachars
                 ∨ ¬ (Ascii.N_of_ascii (ascii_lower c) < 128)%N)) as H3.
  pose proof (bool_decide_decide
                (c ∈ metachars ∨ ¬ (Ascii.N_of_ascii c < 128)%N)) as H4.
  destruct (decide (ascii_lower c = "."%char)),
    (decide (c = "."%char)),
    (decide (ascii_lower c ∈ metachars
             ∨ ¬ (Ascii.N_of_ascii (ascii_lower c) < 128)%N)),
    (decide (c ∈ metachars ∨ ¬ (Ascii.N_of_ascii c < 128)%N));
    try reflexivity; exfalso; revert H1 H2 H3 H4; clear;
    all_chars c; discriminate.
Qed.

Lemma is_ascii_lower c : is_ascii (ascii_lower c) ↔ is_ascii c.
Proof.
  unfold is_ascii.
  pose proof (bool_decide_decide (Ascii.N_of_ascii (ascii_lower c) < 128)%N) as H1.
  pose proof (bool_decide_decide (Ascii.N_of_ascii c < 128)%N) as H2.
  destruct (decide (Ascii.N_of_ascii (ascii_lower c) < 128)%N),
    (decide (Ascii.N_of_ascii c < 128)%N); try tauto;
    exfalso; revert H1 H2; clear; all_chars c; discriminate.
Qed.

Lemma newline_lower c : ascii_lower c ≠ "010"%char ↔ c ≠ "010"%char.
Proof.
  pose proof (bool_decide_decide (ascii_lower c ≠ "010"%char)) as H1.
  pose proof (bool_decide_decide (c ≠ "010"%char)) as H2.
  destruct (decide (ascii_lower c ≠ "010"%char)), (decide (c ≠ "010"%char));
    try tauto; exfalso; revert H1 H2; clear; all_chars c; discriminate.
Qed.

Lemma atom_matches_lower a c :
  atom_matches (atom_lower a) c = atom_matches a c
  ∧ atom_matches a (ascii_lower c) = atom_matches a c.
Proof.
  destruct a as [x|]; cbn.
  - by rewrite !ascii_lower_idemp.
  - split; [done|]. apply bool_decide_ext, newline_lower.
Qed.

Lemma match_here_lower p s :
  match_here (atom_lower <$> p) s = match_here p s
  ∧ match_here p (ascii_lower <$> s) = match_here p s.
Proof.
  revert s. induction p as [|a p IH]; intros s; [done|].
  destruct s as [|c s]; [done|]. cbn [fmap list_fmap match_here].
  destruct (IH s) as [-> ->]. by destruct (atom_matches_lower a c) as [-> ->].
Qed.

Lemma re_search_lower p s :
  re_search (atom_lower <$> p) s = re_search p s
  ∧ re_search p (ascii_lower <$> s) = re_search p s.
Proof.
  induction s as [|c s [IH1 IH2]]; cbn [fmap list_fmap re_search].
  - by destruct (match_here_lower p []) as [-> _].
  - rewrite IH1, IH2.
    destruct (match_here_lower p (c :: s)) as [-> H2].
    cbn [fmap list_fmap] in H2. by rewrite H2.
Qed.

Lemma compile_lower cs :
  mapM compile_char (ascii_lower <$> cs)
  = fmap (M := option) (fmap (M := list) atom_lower) (mapM compile_char cs).
Proof.
  induction cs as [|c cs IH]; [done|].
  cbn [fmap list_fmap mapM]. rewrite IH, compile_char_lower.
  destruct (compile_char c) as [[x|]|]; cbn;
    by destruct (mapM compile_char cs).
Qed.

Lemma Forall_is_ascii_lower cs :
  Forall is_ascii (ascii_lower <$> cs) ↔ Forall is_ascii cs.
Proof.
  rewrite Forall_fmap. apply Forall_proper; [|done].
  intros c. apply is_ascii_lower.
Qed.

(** X22: the search ignores case on both sides: lower-casing the search
    text, or the Domain value, does not change the mask computed by
    [str.contains(search_text, case=False)]. *)
Theorem search_ignores_case text value :
  str_contains (str_lower text) value = str_contains text value
  ∧ str_contains text (str_lower value) = str_contains text value.
Proof.
  unfold str_contains, compile, str_lower, string_lower.
  rewrite !String.list_ascii_of_string_of_list_ascii. split.
  - rewrite compile_lower.
    destruct (mapM compile_char (String.list_ascii_of_string text)) as [p|];
      [|done].
    cbn. case_decide; [|done].
    by destruct (re_search_lower p (String.list_ascii_of_string value)) as [-> _].
  - destruct (mapM compile_char (String.list_ascii_of_string text)) as [p|];
      [|done].
    cbn.
    destruct (re_search_lower p (String.list_ascii_of_string value)) as [_ ->].
    apply decide_ext, Forall_is_ascii_lower.
Qed.

Lemma compile_char_matches c c' a :
  compile_char c = Some a →
  ascii_lower c' = ascii_lower c →
  atom_matches a c' = true.
Proof.
  unfold compile_char. intros Ha Hlow.
  destruct (decide (c = "."%char)) as [->|Hdot].
  - injection Ha as <-. cbn. apply bool_decide_eq_true.
    intros ->. revert Hlow. vm_compute. discriminate.
  - case_decide; [done|]. injection Ha as <-. cbn.
    by apply bool_decide_eq_true.
Qed.

Lemma match_here_occurrence cs p v rest :
  mapM compile_char cs = Some p →
  ascii_lower <$> v = ascii_lower <$> cs →
  match_here p (v ++ rest) = true.
Proof.
  revert p v. induction cs as [|c cs IH]; intros p v Hp Hv.
  - by injection Hp as <-.
  - cbn [mapM] in Hp.
    destruct (compile_char c) as [a|] eqn:Ha; [|done].
    destruct (mapM compile_char cs) as [p'|]; [|done].
    injection Hp as <-.
    destruct v as [|c' v]; [done|]. injection Hv as Hc Hv.
    cbn [app match_here].
    rewrite (compile_char_matches _ _ _ Ha Hc). by apply IH.
Qed.

Lemma re_search_app p pre s :
  match_here p s = true → re_search p (pre ++ s) = true.
Proof.
  intros Hs. induction pre as [|c pre IH]; cbn [app].
  - destruct s; cbn [re_search]; by rewrite Hs.
  - cbn [re_search]. rewrite IH. apply orb_true_r.
Qed.

(** X23: the search never misses a literal occurrence: whenever the mask of
    a value is computed, a value that contains the search text, ignoring
    case, is matched (a dot in the text also matches a dot). *)
Theorem search_finds_every_occurrence text value b :
  str_contains text value = Some b →
  contains_ignoring_case text value →
  b = true.
Proof.
  unfold str_contains, compile, contains_ignoring_case, string_lower.
  intros Hb (pre & post & Hocc).
  destruct (mapM compile_char (String.list_ascii_of_string text)) as [p|] eqn:Hp;
    [|done].
  cbn in Hb. case_decide; [|done]. injection Hb as <-.
  apply fmap_app_inv in Hocc as (v1 & v23 & -> & Hocc & ->).
  symmetry in Hocc. apply fmap_app_inv in Hocc as (v2 & v3 & Hv2 & -> & ->).
  apply re_search_app. by eapply match_here_occurrence.
Qed.

Lemma search_finds_every_occurrence_witness :
  contains_ignoring_case "a.com" "sub.a.com.net"
  ∧ ∃ b, str_contains "a.com" "sub.a.com.net" = Some b ∧ b = true.
Proof.
  assert (Hocc : contains_ignoring_case "a.com" "sub.a.com.net")
    by (apply contains_ignoring_case_test; vm_compute; reflexivity).
  split; [exact Hocc|]. exists true. split; [vm_compute; reflexivity|].
  apply (search_finds_every_occurrence "a.com" "sub.a.com.net" true);
    [vm_compute; reflexivity | exact Hocc].
Defined.

(** ** The colours *)

(** X24: the colour table and the statistics use the same aliases: a label
    is drawn in the Democrat colour exactly when the statistics count it
    under Democrat Articles, in the Republican colour exactly when they
    count it under Republican Articles, and the third colour is that of
    the label Both alone. *)
Theorem party_colors_match_aliases (label : string) :
  (PARTY_COLORS !! label = Some "#0015BC" ↔ label ∈ dem_labels)
  ∧ (PARTY_COLORS !! label = Some "#FF0000" ↔ label ∈ rep_labels)
  ∧ (PARTY_COLORS !! label = Some "#800080" ↔ label = "Both")
  ∧ (is_Some (PARTY_COLORS !! label)
     ↔ label ∈ dem_labels ∨ label ∈ rep_labels ∨ label = "Both").
Proof.
  unfold PARTY_COLORS, dem_labels, rep_labels.
  cbn [list_to_map foldr fst snd]. rewrite is_Some_alt.
  rewrite !elem_of_cons, !elem_of_nil.
  rewrite !lookup_insert, lookup_empty.
  repeat case_decide; subst; split_and!; split;
    try discriminate; try tauto; try done;
    intros; destruct_or?; try discriminate; try done; try tauto; auto.
Qed.

(** ** The choices of the select boxes *)

(** X25: the exact-domain box lists, after the empty choice, every domain
    of the filtered table once, in alphabetical order. *)
Theorem exact_domain_options_listing filtered_df :
  exact_domain_options filtered_df = "" :: all_domains filtered_df
  ∧ StronglySorted String.le (all_domains filtered_df)
  ∧ NoDup (all_domains filtered_df)
  ∧ (∀ d, d ∈ all_domains filtered_df
          ↔ d ∈ DomainRecord.Domain <$> filtered_df).
Proof.
  unfold all_domains. split_and!.
  - done.
  - apply (StronglySorted_merge_sort _).
  - rewrite merge_sort_Permutation. apply NoDup_unique.
  - intros d. by rewrite merge_sort_Permutation, elem_of_unique.
Qed.

(** X26: no choice of the Local Category box of the articles page is dead:
    with the other widgets untouched, every offered choice shows at least
    one row, and a choice other than All shows only rows of that
    category. *)
Theorem posts_local_cat_options_alive posts_df score_range choice :
  score_bounds (PostRecord.Score <$> posts_df) = Some score_range →
  choice ∈ posts_local_cat_options posts_df →
  filtered_posts posts_df (Filters.mk score_range "All" "All" choice "All") ≠ []
  ∧ (choice ≠ "All" →
     ∀ r, r ∈ filtered_posts posts_df
                (Filters.mk score_range "All" "All" choice "All") →
          PostRecord.Local_Category r = Some choice).
Proof.
  intros Hsr Hopt. rewrite filtered_posts_passes. split.
  - assert (∃ r, r ∈ posts_df
                 ∧ (choice ≠ "All" → PostRecord.Local_Category r = Some choice))
      as (r & Hr & Hlc).
    { destruct (decide (choice = "All")) as [->|Hne].
      - destruct posts_df as [|r rest]; [done|].
        exists r. split; [apply list_elem_of_here | done].
      - unfold posts_local_cat_options in Hopt.
        apply elem_of_cons in Hopt as [?|Hopt]; [done|].
        rewrite merge_sort_Permutation, elem_of_unique in Hopt.
        apply list_elem_of_omap in Hopt as (r & Hr & Hlc). by exists r. }
    intros Hnil.
    assert (r ∈ filter (post_passes (Filters.mk score_range "All" "All" choice "All"))
                       posts_df) as Hin.
    { apply list_elem_of_filter. split; [|done].
      unfold post_passes. cbn. split_and!; try done.
      eapply score_bounds_mask; [done | by apply list_elem_of_fmap_2]. }
    rewrite Hnil in Hin. by apply not_elem_of_nil in Hin.
  - intros Hne r [Hp _]%list_elem_of_filter.
    destruct Hp as (_ & _ & _ & Hlc & _). by apply Hlc.
Qed.

Lemma posts_local_cat_options_alive_witness :
  posts_local_cat_options sample_posts = ["All"; "local"; "non_local"]
  ∧ filtered_posts sample_posts (Filters.mk (3, 5)%Q "All" "All" "local" "All")
    ≠ [].
Proof.
  assert (Hopts : posts_local_cat_options sample_posts
                  = ["All"; "local"; "non_local"])
    by (vm_compute; reflexivity).
  split; [exact Hopts|].
  apply (posts_local_cat_options_alive sample_posts (3, 5)%Q "local").
  - vm_compute. reflexivity.
  - rewrite Hopts. apply list_elem_of_further, list_elem_of_here.
Defined.

(** ** The average-score chart *)

Lemma topic_score_keys_aux (df : list DomainRecord.t)
    (keys : list (string * string)) :
  (∀ k, k ∈ keys →
        k ∈ (λ r, (DomainRecord.Topic_Category r,
                   DomainRecord.Global_Classification r)) <$> df) →
  (λ g : string * string * Q, (g.1.1, g.1.2))
    <$> omap (λ k, match filter (λ r, (DomainRecord.Topic_Category r,
                                      DomainRecord.Global_Classification r) = k)
                               df with
                   | [] => None
                   | r :: rs =>
                       Some (k.1, k.2,
                             mean (DomainRecord.Score r)
                                  (DomainRecord.Score <$> rs))
                   end) keys
  = keys.
Proof.
  induction keys as [|k keys IH]; intros Hin; [done|].
  cbn [omap list_omap].
  assert (k ∈ (λ r, (DomainRecord.Topic_Category r,
                     DomainRecord.Global_Classification r)) <$> df)
    as (r & Hk & Hr)%list_elem_of_fmap by apply Hin, list_elem_of_here.
  assert (r ∈ filter (λ r, (DomainRecord.Topic_Category r,
                            DomainRecord.Global_Classification r) = k) df)
    as Hrin by (by apply list_elem_of_filter).
  destruct (filter _ df) as [|r' rs]; [by apply not_elem_of_nil in Hrin|].
  cbn [fmap list_fmap]. destruct k as [t c]. cbn. f_equal.
  apply IH. intros k' Hk'. by apply Hin, list_elem_of_further.
Qed.

(** X27: the average-score chart has a bar exactly where the topic chart
    has one: both tables list the same (Topic_Category,
    Global_Classification) pairs, in the same order. *)
Theorem topic_score_same_bars filtered_df :
  (λ g : string * string * Q, (g.1.1, g.1.2)) <$> topic_score filtered_df
  = (λ g : string * string * Z, (g.1.1, g.1.2)) <$> topic_dist filtered_df.
Proof.
  unfold topic_score, topic_dist, groupby_pair_sum.
  rewrite topic_score_keys_aux
    by (intros k; by rewrite merge_sort_Permutation, elem_of_remove_dups).
  rewrite <- list_fmap_compose.
  rewrite (list_fmap_ext _ id) by (by intros _ [??] _).
  by rewrite list_fmap_id.
Qed.
